(** * BartBot, [BART/BART.js]: the cache-refresh pipeline and the query engine

    A shallow embedding of the BART module.

    - JavaScript numbers are modelled as [option R]: [None] is [NaN], and a
      finite double is idealised as the real number it approximates (no
      rounding, no overflow, no infinities).  What is proved of the nearest
      station is stated on the distances as they are computed and on
      their order.
    - A function that takes a node-style callback [cb] is modelled by the
      [outcome] it produces: either one call [cb(err, result)], or an
      exception that escapes the function.
    - What the network and the XML parser deliver is an input of the model.
*)

From Stdlib Require Import Reals Lra Lia ZArith Bool List String Ascii.
From Stdlib Require Import Permutation Sorted OrdersEx RelationClasses.
Import ListNotations.

Set Implicit Arguments.

(* ===================================================================== *)
(** ** JavaScript numbers *)
(* ===================================================================== *)

Module Num.

Local Open Scope R_scope.

(** A JavaScript number: [None] stands for [NaN]. *)
Definition number : Type := option R.

Definition NaN : number := None.
Definition num (r : R) : number := Some r.

Definition lift1 (f : R -> R) (x : number) : number :=
  match x with Some a => Some (f a) | None => None end.

Definition lift2 (f : R -> R -> R) (x y : number) : number :=
  match x, y with Some a, Some b => Some (f a b) | _, _ => None end.

Definition add : number -> number -> number := lift2 Rplus.
Definition sub : number -> number -> number := lift2 Rminus.
Definition mul : number -> number -> number := lift2 Rmult.

(** [x / y]; a zero divisor would give an infinity, which is outside the
    model, so it is mapped to [NaN].  The module only divides by the
    literals [2], [180] and [60000]. *)
Definition div (x y : number) : number :=
  match x, y with
  | Some a, Some b => if Req_dec_T b 0 then None else Some (a / b)
  | _, _ => None
  end.

(** [x < y]: false as soon as one side is [NaN]. *)
Definition ltb (x y : number) : bool :=
  match x, y with
  | Some a, Some b => if Rlt_dec a b then true else false
  | _, _ => false
  end.

Definition Math_PI : number := Some PI.
Definition Math_sin : number -> number := lift1 sin.
Definition Math_cos : number -> number := lift1 cos.

(** [Math.sqrt]: [NaN] on a negative argument. *)
Definition Math_sqrt (x : number) : number :=
  match x with
  | Some a => if Rlt_dec a 0 then None else Some (sqrt a)
  | None => None
  end.

(** The angle of the point [(x, y)], in [(-PI, PI]]. *)
Definition atan2R (y x : R) : R :=
  if Rlt_dec 0 x then atan (y / x)
  else if Rlt_dec x 0 then
         (if Rle_dec 0 y then atan (y / x) + PI else atan (y / x) - PI)
  else if Rlt_dec 0 y then PI / 2
  else if Rlt_dec y 0 then - (PI / 2)
  else 0.

Definition Math_atan2 : number -> number -> number := lift2 atan2R.

End Num.

Import Num.

Declare Scope js_scope.
Delimit Scope js_scope with js.
Bind Scope js_scope with number.
Infix "+" := add : js_scope.
Infix "-" := sub : js_scope.
Infix "*" := mul : js_scope.
Infix "/" := div : js_scope.
Infix "<?" := ltb : js_scope.

(* ===================================================================== *)
(** ** Strings *)
(* ===================================================================== *)

Module Str.

Local Open Scope string_scope.

Definition isDigit (c : ascii) : bool :=
  let n := nat_of_ascii c in (48 <=? n)%nat && (n <=? 57)%nat.

Definition digitVal (c : ascii) : Z := Z.of_nat (nat_of_ascii c - 48).

(** White space that [parseFloat] and [trim] strip: space, tab, line feed,
    vertical tab, form feed, carriage return. *)
Definition isSpace (c : ascii) : bool :=
  let n := nat_of_ascii c in
  (n =? 32)%nat || ((9 <=? n)%nat && (n <=? 13)%nat).

Fixpoint trimStart (s : string) : string :=
  match s with
  | String c r => if isSpace c then trimStart r else s
  | EmptyString => EmptyString
  end.

(** Drops trailing white space. *)
Fixpoint trimEnd (s : string) : string :=
  match s with
  | EmptyString => EmptyString
  | String c r =>
      match trimEnd r with
      | EmptyString => if isSpace c then EmptyString else String c EmptyString
      | r' => String c r'
      end
  end.

(** [s.trim()] *)
Definition trim (s : string) : string := trimEnd (trimStart s).

(** Reads a run of decimal digits: the value accumulated on [acc], how many
    digits were read, and the rest of the string. *)
Fixpoint takeDigits (s : string) (acc : Z) (cnt : nat) : Z * nat * string :=
  match s with
  | String c r =>
      if isDigit c then takeDigits r (10 * acc + digitVal c)%Z (S cnt)
      else (acc, cnt, s)
  | EmptyString => (acc, cnt, s)
  end.

(** The exponent part [e[+-]digits] of a decimal literal, [0] when there
    is none. *)
Definition exponentPart (s : string) : Z :=
  match s with
  | String c r =>
      if (Ascii.eqb c "e" || Ascii.eqb c "E")%bool then
        let '(neg, r') :=
          match r with
          | String "-" t => (true, t)
          | String "+" t => (false, t)
          | _ => (false, r)
          end in
        let '(v, n, _) := takeDigits r' 0%Z 0%nat in
        match n with
        | O => 0%Z
        | S _ => if neg then (- v)%Z else v
        end
      else 0%Z
  | EmptyString => 0%Z
  end.

(** [parseFloat(s)]: the longest prefix of the trimmed string that is a
    decimal literal, [NaN] when there is none.  The literal [Infinity] is
    outside the number model and reads as [NaN]. *)
Definition parseFloat (s : string) : number :=
  let s1 := trimStart s in
  let '(neg, s2) :=
    match s1 with
    | String "-" t => (true, t)
    | String "+" t => (false, t)
    | _ => (false, s1)
    end in
  let '(ip, ni, s3) := takeDigits s2 0%Z 0%nat in
  let '(m, nf, s4) :=
    match s3 with
    | String "." t => takeDigits t ip 0%nat
    | _ => (ip, 0%nat, s3)
    end in
  match (ni + nf)%nat with
  | O => NaN
  | S _ =>
      let e := (exponentPart s4 - Z.of_nat nf)%Z in
      let v := (IZR m * powerRZ 10 e)%R in
      Some (if neg then (- v)%R else v)
  end.

(** [s] without its first [n] characters. *)
Fixpoint drop (n : nat) (s : string) : string :=
match n, s with
| S k, String _ r => drop k r
| _, _ => s
end.

(** [s.indexOf(pat)]: the position of the first occurrence, [-1] when there
    is none. *)
Definition indexOf (s pat : string) : Z :=
match String.index 0 pat s with
| Some n => Z.of_nat n
| None => (-1)%Z
end.

(** [s.replace(pat, rep)] for a string pattern: the first occurrence of
    [pat] is replaced.  ([rep] is taken literally: the replacement used by
    the module has no [$] pattern.) *)
Fixpoint replace (pat rep s : string) : string :=
match s with
| EmptyString => if String.prefix pat s then rep else s
| String c r =>
    if String.prefix pat s then rep ++ drop (String.length pat) s
    else String c (replace pat rep r)
end.

(** [s.split(sep)] for a non-empty separator, scanning left to right:
    [skip] characters of a separator just matched are still to be passed,
    and [cur] is the piece read so far. *)
Fixpoint splitFrom (sep : string) (skip : nat) (cur s : string) : list string :=
match s with
| EmptyString => [cur]
| String c r =>
    match skip with
    | S k => splitFrom sep k cur r
    | O =>
        if String.prefix sep s
        then cur :: splitFrom sep (String.length sep - 1) EmptyString r
        else splitFrom sep 0 (cur ++ String c EmptyString) r
    end
end.

Definition split (sep s : string) : list string := splitFrom sep 0 EmptyString s.

(** [pieces.join(sep)] *)
Fixpoint join (sep : string) (pieces : list string) : string :=
match pieces with
| [] => EmptyString
| [p] => p
| p :: rest => p ++ sep ++ join sep rest
end.

Definition upper (c : ascii) : ascii :=
let n := nat_of_ascii c in
if ((97 <=? n)%nat && (n <=? 122)%nat)%bool then ascii_of_nat (n - 32) else c.

(** [s.toUpperCase()] *)
Fixpoint toUpperCase (s : string) : string :=
match s with
| EmptyString => EmptyString
| String c r => String (upper c) (toUpperCase r)
end.

End Str.

Import Str.

(* ===================================================================== *)
(** ** Data model *)
(* ===================================================================== *)

(** One [<station>] element of the station list, as xml2js delivers it with
    [explicitArray: false]: every field is a string. *)
Record Station := mkStation {
  name : string;
  abbr : string;
  gtfs_latitude : string;
  gtfs_longitude : string
}.

(** A field that xml2js, with [explicitArray: false], delivers as the bare
    element when there is one and as an array when there are several. *)
Inductive oneOrMany (A : Type) : Type :=
| Single (a : A)
| Many (l : list A).
Arguments Single {A} a.
Arguments Many {A} l.

(** [Array.isArray] *)
Definition isArray {A : Type} (v : oneOrMany A) : bool :=
match v with Many _ => true | Single _ => false end.

(** What a counting loop [for (n = 0; n < v.length; n++)] visits in [v]: the
    elements of an array, and nothing in a bare object, which has no
    [length] ([n < undefined] is false at once). *)
Definition elements {A : Type} (v : oneOrMany A) : list A :=
match v with Many l => l | Single _ => [] end.

(** [res.root.stations] of the station-list document: [.station] is the
    array of stations when the document lists several, and the bare station
    when it lists one. *)
Record StationList := mkStationList {
  station : oneOrMany Station
}.

(** The value of exceptions that escape the module. *)
Inductive exn := TypeError.

(** The errors handed to a callback as its first argument: the [error] of
    the request library and the [err] of the XML parser. *)
Inductive error := RequestError | XmlError.

(** A computation that may throw. *)
Inductive js (A : Type) : Type :=
| Ret (a : A)
| Throw (e : exn).
Arguments Ret {A} a.
Arguments Throw {A} e.

Definition bind {A B : Type} (m : js A) (k : A -> js B) : js B :=
  match m with
  | Ret a => k a
  | Throw e => Throw e
  end.

Notation "x <- m ;; k" := (bind m (fun x => k))
  (at level 61, m at next level, right associativity).

(** What a function with a node-style callback does: it calls
    [cb(err, result)] once ([None] is [null] or a missing argument), or an
    exception escapes it. *)
Inductive outcome (A : Type) : Type :=
| Callback (err : option error) (result : option A)
| Throws (e : exn).
Arguments Callback {A} err result.
Arguments Throws {A} e.

Definition calls {A : Type} (m : js (option error * option A)) : outcome A :=
  match m with
  | Ret (err, result) => Callback err result
  | Throw e => Throws e
  end.

(** [closestStation] of [stationByLocation]: the empty object it starts
    with, or a copy of a station with the added [distance] property. *)
Inductive closest :=
| EmptyObject
| Closest (st : Station) (distance : number).

Section Cache.

(** The documents the code stores without looking inside: one entry of the
    station info and station access aggregates, of which only the name is
    read, and the root of the elevator status document. *)
Context {Detail Elevator : Type}.

(** [infoCache]: [None] is the initial [undefined] of a slot. *)
Record infoCache := mkCache {
  stationList : option StationList;
  stationInfo : option (list Detail);
  stationAccess : option (list Detail);
  elevatorStatus : option Elevator
}.

Definition emptyCache : infoCache :=
  {| stationList := None; stationInfo := None;
     stationAccess := None; elevatorStatus := None |}.

Definition getStationList (c : infoCache) := stationList c.
Definition getStationInfo (c : infoCache) := stationInfo c.
Definition getStationAccess (c : infoCache) := stationAccess c.
Definition getElevatorStatus (c : infoCache) := elevatorStatus c.

(** The setters store what they are given, [undefined] too.  The two
    aggregates are only ever given an array. *)
Definition updateStationList (c : infoCache) (newStationList : option StationList) :=
  {| stationList := newStationList; stationInfo := stationInfo c;
     stationAccess := stationAccess c; elevatorStatus := elevatorStatus c |}.

Definition updateStationInfo (c : infoCache) (newStationInfo : list Detail) :=
  {| stationList := stationList c; stationInfo := Some newStationInfo;
     stationAccess := stationAccess c; elevatorStatus := elevatorStatus c |}.

Definition updateStationAccess (c : infoCache) (newStationAccess : list Detail) :=
  {| stationList := stationList c; stationInfo := stationInfo c;
     stationAccess := Some newStationAccess; elevatorStatus := elevatorStatus c |}.

Definition updateElevatorStatus (c : infoCache) (newElevatorStatus : option Elevator) :=
  {| stationList := stationList c; stationInfo := stationInfo c;
     stationAccess := stationAccess c; elevatorStatus := newElevatorStatus |}.

(** [infoCache.getStationList().station]: reading a property of
    [undefined] throws. *)
Definition cachedStations (c : infoCache) : js (oneOrMany Station) :=
  match getStationList c with
  | Some l => Ret (station l)
  | None => Throw TypeError
  end.

End Cache.

Arguments infoCache : clear implicits.

(* ===================================================================== *)
(** ** Query engine *)
(* ===================================================================== *)

(** [Number.prototype.toRad] *)
Definition toRad (this : number) : number :=
  (this * (Math_PI / num 180))%js.

Definition getDistance (latUser lonUser latStation lonStation : number) : number :=
  let R := num 6371 in
  let dLat := toRad (latStation - latUser)%js in
  let dLon := toRad (lonStation - lonUser)%js in
  let a := (Math_sin (dLat / num 2) * Math_sin (dLat / num 2) +
            Math_cos (toRad latStation) * Math_cos (toRad latUser) *
            Math_sin (dLon / num 2) * Math_sin (dLon / num 2))%js in
  let c := (num 2 * Math_atan2 (Math_sqrt a) (Math_sqrt (num 1 - a)))%js in
  let d := (R * c)%js in
  (d * num 0.621371)%js.

(** The body of [getStationName]'s loop: the name of the first station whose
    abbreviation is [abbr], [None] ([undefined]) when the loop runs out. *)
Fixpoint findStationName (stations : list Station) (abbr' : string) : option string :=
  match stations with
  | s :: rest =>
      if String.eqb (abbr s) abbr' then Some (name s)
      else findStationName rest abbr'
  | [] => None
  end.

(** The loop of [stationByLocation], from station [n] on. *)
Fixpoint closestLoop (userLatitude userLongitude : number) (stations : list Station)
    (closestStation : closest) (closestDistance : number) : closest :=
  match stations with
  | thisStation :: rest =>
      let thisDistance :=
        getDistance userLatitude userLongitude
          (parseFloat (gtfs_latitude thisStation))
          (parseFloat (gtfs_longitude thisStation)) in
      if (thisDistance <? closestDistance)%js then
        closestLoop userLatitude userLongitude rest
          (Closest thisStation closestDistance) thisDistance
      else
        closestLoop userLatitude userLongitude rest closestStation closestDistance
  | [] => closestStation
  end.

Section Queries.

Context {Detail Elevator : Type}.
Local Abbreviation cache := (infoCache Detail Elevator).

Definition getStationName (c : cache) (abbr' : string) : js (option string) :=
  stations <- cachedStations c ;;
  Ret (findStationName (elements stations) abbr').

Definition getStations (c : cache) : outcome (oneOrMany Station) :=
  calls (stations <- cachedStations c ;;
         Ret (None, Some stations)).

Definition stationByLocation (c : cache) (lat lng : string) : outcome closest :=
  calls (stations <- cachedStations c ;;
         let closestStation := EmptyObject in
         let closestDistance := num 999999.9 in
         let userLatitude := parseFloat lat in
         let userLongitude := parseFloat lng in
         Ret (None,
              Some (closestLoop userLatitude userLongitude (elements stations)
                      closestStation closestDistance))).

End Queries.

(* ===================================================================== *)
(** ** Collaborators: lodash, the request library *)
(* ===================================================================== *)

Section SortBy.

Context {A : Type}.
Variable key : A -> string.

(** [x] goes in front of the first element whose key is not smaller. *)
Fixpoint insertBy (x : A) (sorted : list A) : list A :=
match sorted with
| [] => [x]
| y :: rest =>
    if String.leb (key x) (key y) then x :: sorted
    else y :: insertBy x rest
end.

(** [_.sortBy(collection, key)]: a stable sort, ascending on the key, which
    is compared as strings are by [<]. *)
Fixpoint sortBy (collection : list A) : list A :=
match collection with
| [] => []
| x :: rest => insertBy x (sortBy rest)
end.

End SortBy.

(** The options object handed to [request]. *)
Record requestOptions := mkOptions {
  uri : string;
  method : string;
  timeout : Z;
  followRedirect : bool;
  maxRedirects : Z
}.

(** What [request] hands to its callback [(error, resp, body)]: an error
    and no body, or no error and the body of the response. *)
Inductive reply :=
| Failed
| Body (body : string).

Definition replyError (r : reply) : option error :=
match r with Failed => Some RequestError | Body _ => None end.

Definition replyBody (r : reply) : option string :=
match r with Failed => None | Body b => Some b end.

(** What xml2js hands to the callback [(err, res)] of [parseString], seen
    from the part of [res] that the caller reads:
    - [ParseError]: [err] is set and [res] is [undefined];
    - [Unreadable]: [err] is [null], and reading the part throws, because
      [res] is [null] (xml2js reports a document with no text in this way)
      or because an element on the way to the part is missing;
    - [Result r]: [err] is [null] and the part is [r]. *)
Inductive parsed (T : Type) : Type :=
| ParseError
| Unreadable
| Result (r : T).
Arguments ParseError {T}.
Arguments Unreadable {T}.
Arguments Result {T} r.

(** [xmlParser.parseString(body, options, callback)]: [parser] is xml2js
    under the options of the call.  A body that is [undefined] is reported
    as an error. *)
Definition parseString {T : Type} (parser : string -> parsed T)
    (body : option string) : parsed T :=
match body with
| Some b => parser b
| None => ParseError
end.

(** Reading the part without a look at [err]: it throws when there is
    nothing to read it from. *)
Definition rootOf {T : Type} (res : parsed T) : js T :=
match res with
| Result r => Ret r
| ParseError | Unreadable => Throw TypeError
end.

(** Calling a method of [body] when it is [undefined] throws. *)
Definition bodyOf (body : option string) : js string :=
match body with
| Some b => Ret b
| None => Throw TypeError
end.

Definition bartApiBaseUrl : string := "http://api.bart.gov/api".
Definition defaultApiKey : string := "MW9S-E7SL-26DU-VV8V".
Definition bartApiTimeout : Z := 10000.

Definition rawColiseum : string := "Coliseum/Oakland Airport".
Definition coliseum : string := "Coliseum".

(** The root of the announcements document. *)
Record bsaRoot (Announcement : Type) := mkBsaRoot {
  bsa : oneOrMany Announcement
}.

(** [leg.details] of a schedule document, with the three names that
    [getConnectionData] adds ([None]: not set, or set to [undefined]). *)
Record legDetails := mkLegDetails {
  origin : string;
  destination : string;
  trainHeadStation : string;
  originName : option string;
  destinationName : option string;
  trainHeadStationName : option string
}.

Record leg := mkLeg { legDetail : legDetails }.

(** [trip.details] of a schedule document, with the added [duration]. *)
Record tripDetails := mkTripDetails {
  origTimeMin : string;
  origTimeDate : string;
  destTimeMin : string;
  destTimeDate : string;
  duration : option number
}.

(** [res.root.schedule.request.trip] *)
Record trip := mkTrip {
  details : tripDetails;
  legs : oneOrMany leg
}.

(** [cnxn] of [getConnectionData] *)
Record connection := mkConnection {
  start : string;
  cnxnDestination : string
}.

(* ===================================================================== *)
(** ** The module *)
(* ===================================================================== *)

Section BART.

Local Open Scope string_scope.

(** The documents the module passes on without reading them. *)
Context {Detail Elevator Announcement Count : Type}.

(** [process.env.BART_API_KEY] *)
Variable env_BART_API_KEY : option string.

(** The upstream service, as the request library reaches it. *)
Variable httpRequest : requestOptions -> reply.

(** xml2js on each kind of document, giving the part the module reads:
    [res.root.stations] of the station list, [res.root.stations.station] of
    a station access and of a station info document,
    [res.root.schedule.request.trip] of a schedule, [res.root] of the
    others.  The parts that the module passes on or stores without reading
    them may be [undefined] ([None]): [res.root.stations] when the root has
    no such element, [res.root] when the document element has another
    name. *)
Variable parseStations : string -> parsed (option StationList).
Variable parseAccess : string -> parsed Detail.
Variable parseInfo : string -> parsed Detail.
Variable parseElevator : string -> parsed (option Elevator).
Variable parseBsa : string -> parsed (bsaRoot Announcement).
Variable parseCount : string -> parsed (option Count).
Variable parseSchedule : string -> parsed trip.

(** The [name] property of an aggregate entry. *)
Variable detailName : Detail -> string.

(** [new Date(s)], as the number of milliseconds it converts to. *)
Variable newDate : string -> number.

Local Abbreviation cache := (infoCache Detail Elevator).

Definition bartApiKey : string :=
match env_BART_API_KEY with
| Some k => if String.eqb k "" then defaultApiKey else k
| None => defaultApiKey
end.

Definition buildHttpRequestOptions (requestUrl : string) : requestOptions :=
{| uri := bartApiBaseUrl ++ "/" ++ requestUrl ++ "&key=" ++ bartApiKey;
   method := "GET";
   timeout := bartApiTimeout;
   followRedirect := true;
   maxRedirects := 10 |}.

(** *** Refresh of the elevator status *)

Definition loadElevatorStatus (c : cache) : js cache :=
let body := replyBody (httpRequest (buildHttpRequestOptions "bsa.aspx?cmd=elev")) in
root <- rootOf (parseString parseElevator body) ;;
Ret (updateElevatorStatus c root).

(** *** Refresh of the station list *)

(** [loadStationList] up to the call of [getStationInfoAndAccess]. *)
Definition storeStationList (c : cache) : js cache :=
let body := replyBody (httpRequest (buildHttpRequestOptions "stn.aspx?cmd=stns")) in
body <- bodyOf body ;;
let body := replace rawColiseum coliseum body in
stations <- rootOf (parseString parseStations (Some body)) ;;
Ret (updateStationList c stations).

(** *** The station-detail fan-out *)

Definition stationInfoURL (thisStation : Station) : string :=
"stn.aspx?cmd=stninfo&orig=" ++ abbr thisStation.

Definition stationAccessURL (thisStation : Station) : string :=
"stn.aspx?cmd=stnaccess&orig=" ++ abbr thisStation.

(** The callback of one request of a batch, up to its [push]: the entry it
    adds to the aggregate. *)
Definition fetchDetail (parser : string -> parsed Detail) (url : string) : js Detail :=
let body := replyBody (httpRequest (buildHttpRequestOptions url)) in
body <-
  (if (indexOf url "COLS" >? -1)%Z then
     b <- bodyOf body ;; Ret (Some (join coliseum (split rawColiseum b)))
   else Ret body) ;;
rootOf (parseString parser body).

(** One [async.each]: the URLs it was given, what its requests have pushed,
    and how many of them have called [callback()]. *)
Record batch := mkBatch {
  urls : list string;
  pushed : list Detail;
  completed : nat
}.

(** The state of a fan-out in flight. *)
Record fanout := mkFanout {
  cached : cache;
  access : batch;
  info : batch
}.

(** The completion of a request: the [n]-th of the access batch or of the
    info batch. *)
Inductive completion :=
| AccessDone (n : nat)
| InfoDone (n : nat).

(** [async.each] runs its final callback when the last [callback()] comes
    in, and at once when it is given no item. *)
Definition allDone (b : batch) : bool := (List.length (urls b) <=? completed b)%nat.

Definition accessFinal (f : fanout) : fanout :=
if allDone (access f) then
  {| cached := updateStationAccess (cached f) (sortBy detailName (pushed (access f)));
     access := access f; info := info f |}
else f.

Definition infoFinal (f : fanout) : fanout :=
if allDone (info f) then
  {| cached := updateStationInfo (cached f) (sortBy detailName (pushed (info f)));
     access := access f; info := info f |}
else f.

(** [getStationInfoAndAccess], up to the return of its two [async.each]
    calls: every request is in flight. *)
Definition getStationInfoAndAccess (c : cache) : js fanout :=
stations <- cachedStations c ;;
let stationInfoURLs := map stationInfoURL (elements stations) in
let stationAccessURLs := map stationAccessURL (elements stations) in
Ret (infoFinal (accessFinal
  {| cached := c;
     access := {| urls := stationAccessURLs; pushed := []; completed := 0 |};
     info := {| urls := stationInfoURLs; pushed := []; completed := 0 |} |})).

Definition pushDetail (b : batch) (d : Detail) : batch :=
{| urls := urls b; pushed := pushed b ++ [d]; completed := S (completed b) |}.

(** The event loop runs the callback of a completed request.  (A completion
    for a request that was never made is no event.) *)
Definition complete (ev : completion) (f : fanout) : js fanout :=
match ev with
| AccessDone n =>
    match nth_error (urls (access f)) n with
    | Some url =>
        d <- fetchDetail parseAccess url ;;
        Ret (accessFinal
          {| cached := cached f; access := pushDetail (access f) d; info := info f |})
    | None => Ret f
    end
| InfoDone n =>
    match nth_error (urls (info f)) n with
    | Some url =>
        d <- fetchDetail parseInfo url ;;
        Ret (infoFinal
          {| cached := cached f; access := access f; info := pushDetail (info f) d |})
    | None => Ret f
    end
end.

(** How a run of the event loop ends: all the completions were handled, or
    a callback threw, which nothing catches. *)
Inductive run :=
| Finished (f : fanout)
| Faulted (e : exn) (f : fanout).

Fixpoint runFanout (events : list completion) (f : fanout) : run :=
match events with
| [] => Finished f
| ev :: rest =>
    match complete ev f with
    | Ret f' => runFanout rest f'
    | Throw e => Faulted e f
    end
end.

Definition finalCache (r : run) : cache :=
match r with
| Finished f => cached f
| Faulted _ f => cached f
end.

(** The same loop in a host process that handles uncaught exceptions and
    goes on: a callback that throws is lost, the later completions are still
    handled. *)
Fixpoint runFanoutCaught (events : list completion) (f : fanout) : fanout :=
match events with
| [] => f
| ev :: rest =>
    match complete ev f with
    | Ret f' => runFanoutCaught rest f'
    | Throw _ => runFanoutCaught rest f
    end
end.

(** [loadStationList], followed by the completions of its fan-out.  When
    [getStationInfoAndAccess] throws, the cache is as [storeStationList] has
    left it. *)
Definition loadStationList (events : list completion) (c : cache) : js run :=
c' <- storeStationList c ;;
f <- getStationInfoAndAccess c' ;;
Ret (runFanout events f).

(** *** Live queries *)

(** [getServiceAnnouncements] and [status] hand the error of the parser to
    the callback and then read [res.root], which throws when [res] is
    [null]; [getServiceAnnouncements] reads [res.root.bsa] as well. *)
Definition getServiceAnnouncements : outcome (bsaRoot Announcement) :=
let body := replyBody (httpRequest (buildHttpRequestOptions "bsa.aspx?cmd=bsa&date=today")) in
match parseString parseBsa body with
| ParseError => Callback (Some XmlError) None
| Unreadable => Throws TypeError
| Result root =>
    let root :=
      match bsa root with
      | Single a => {| bsa := Many [a] |}
      | Many _ => root
      end in
    Callback None (Some root)
end.

Definition status : outcome Count :=
let r := httpRequest (buildHttpRequestOptions "bsa.aspx?cmd=count") in
match replyError r with
| Some error => Callback (Some error) None
| None =>
    match parseString parseCount (replyBody r) with
    | ParseError => Callback (Some XmlError) None
    | Unreadable => Throws TypeError
    | Result root => Callback None root
    end
end.

(** The body of the loop that enriches the legs. *)
Definition enrichLeg (c : cache) (l : leg) : js leg :=
let d := legDetail l in
originName' <- getStationName c (origin d) ;;
destinationName' <- getStationName c (destination d) ;;
trainHeadStationName' <- getStationName c (trainHeadStation d) ;;
Ret {| legDetail :=
         {| origin := origin d; destination := destination d;
            trainHeadStation := trainHeadStation d;
            originName := originName';
            destinationName := destinationName';
            trainHeadStationName := trainHeadStationName' |} |}.

Fixpoint enrichLegs (c : cache) (ls : list leg) : js (list leg) :=
match ls with
| [] => Ret []
| l :: rest =>
    l' <- enrichLeg c l ;;
    rest' <- enrichLegs c rest ;;
    Ret (l' :: rest')
end.

Definition scheduleUrl (cnxn : connection) : string :=
let fromStation := toUpperCase (start cnxn) in
let toStation := toUpperCase (cnxnDestination cnxn) in
"sched.aspx?cmd=depart&orig=" ++ fromStation ++ "&dest=" ++ toStation ++ "&time=now&b=0&a=1".

Definition getConnectionData (c : cache) (cnxn : connection) : outcome trip :=
let r := httpRequest (buildHttpRequestOptions (scheduleUrl cnxn)) in
match replyError r with
| Some error => Callback (Some error) None
| None =>
    calls (
      t <- rootOf (parseString parseSchedule (replyBody r)) ;;
      let origTimeDate' := trim (origTimeDate (details t)) in
      let legs' := match legs t with Single l => [l] | Many ls => ls end in
      legs' <- enrichLegs c legs' ;;
      let startDate := newDate (origTimeDate' ++ " " ++ origTimeMin (details t)) in
      let endDate := newDate (destTimeDate (details t) ++ " " ++ destTimeMin (details t)) in
      let duration' := ((endDate - startDate) / num 60000)%js in
      Ret (None,
           Some {| details :=
                     {| origTimeMin := origTimeMin (details t);
                        origTimeDate := origTimeDate';
                        destTimeMin := destTimeMin (details t);
                        destTimeDate := destTimeDate (details t);
                        duration := Some duration' |};
                   legs := Many legs' |}))
end.

End BART.

(* ===================================================================== *)
(** ** The host's [Date], on the times of the schedule documents *)
(* ===================================================================== *)

Module LocalDate.

Local Open Scope string_scope.
Local Open Scope Z_scope.

(** Days from 1970-01-01 to the civil date [y]-[m]-[d]. *)
Definition daysFromCivil (y m d : Z) : Z :=
let y' := if m <=? 2 then y - 1 else y in
let era := y' / 400 in
let yoe := y' - era * 400 in
let doy := (153 * (if m >? 2 then m - 3 else m + 9) + 2) / 5 + d - 1 in
let doe := yoe * 365 + yoe / 4 - yoe / 100 + doy in
era * 146097 + doe - 719468.

Definition isLeap (y : Z) : bool :=
((y mod 4 =? 0) && negb (y mod 100 =? 0)) || (y mod 400 =? 0).

Definition daysInMonth (y m : Z) : Z :=
if m =? 2 then (if isLeap y then 29 else 28)
else if (m =? 4) || (m =? 6) || (m =? 9) || (m =? 11) then 30
else 31.

(** A date as the schedule documents write it, [MM/DD/YYYY]: two digits,
    two digits and four digits, for a day that the month has. *)
Definition calendarDay (s : string) : option Z :=
let '(m, n1, r1) := takeDigits s 0 0%nat in
match r1 with
| String "/" r1' =>
    let '(d, n2, r2) := takeDigits r1' 0 0%nat in
    match r2 with
    | String "/" r2' =>
        let '(y, n3, r3) := takeDigits r2' 0 0%nat in
        match r3 with
        | EmptyString =>
            if (n1 =? 2)%nat && (n2 =? 2)%nat && (n3 =? 4)%nat
               && (1970 <=? y) && (1 <=? m) && (m <=? 12)
               && (1 <=? d) && (d <=? daysInMonth y m)
            then Some (daysFromCivil y m d) else None
        | _ => None
        end
    | _ => None
    end
| _ => None
end.

(** A time of day as the schedule documents write it, [h:mm AM] or
    [h:mm PM], or on the 24-hour clock, [h:mm]: one or two digits for the
    hour, two for the minute, one blank in front of [AM] and [PM], which
    are in capitals.  The result is the minutes since midnight. *)
Definition timeOfDay (s : string) : option Z :=
let '(h, n1, r1) := takeDigits s 0 0%nat in
match r1 with
| String ":" r1' =>
    let '(mi, n2, r2) := takeDigits r1' 0 0%nat in
    if ((n1 =? 1)%nat || (n1 =? 2)%nat) && (n2 =? 2)%nat && (mi <=? 59) then
      match r2 with
      | "" => if h <=? 23 then Some (h * 60 + mi) else None
      | " AM" => if (1 <=? h) && (h <=? 12) then Some (h mod 12 * 60 + mi) else None
      | " PM" => if (1 <=? h) && (h <=? 12) then Some ((h mod 12 + 12) * 60 + mi) else None
      | _ => None
      end
    else None
| _ => None
end.

(** The text up to the first white space, and the text from there on. *)
Fixpoint breakSpace (s : string) : string * string :=
match s with
| EmptyString => (EmptyString, EmptyString)
| String c r =>
    if isSpace c then (EmptyString, s)
    else let '(a, b) := breakSpace r in (String c a, b)
end.

(** [new Date(s)] for [s] a date, one blank and a time of day in the
    spellings above, read as local time in a zone whose offset from UTC is
    [tzMinutes] at that hour.  The host reads other spellings too; they are
    not modelled, and the conversion is [NaN] on them here. *)
Definition newDate (tzMinutes : Z) (s : string) : number :=
let '(date, rest) := breakSpace s in
match rest with
| String " " time =>
    match calendarDay date, timeOfDay time with
    | Some day, Some minutes => Some (IZR ((day * 1440 + minutes - tzMinutes) * 60000))
    | _, _ => NaN
    end
| _ => NaN
end.

End LocalDate.

(* ===================================================================== *)
(** ** Vocabulary of the properties *)
(* ===================================================================== *)

(** The distance [stationByLocation] computes for a station. *)
Definition stationDistance (lat lng : string) (s : Station) : number :=
getDistance (parseFloat lat) (parseFloat lng)
  (parseFloat (gtfs_latitude s)) (parseFloat (gtfs_longitude s)).

Definition numeric (x : number) : Prop := x <> NaN.

(** A number that is neither [NaN] nor an infinity.  (The model has no
    infinity: these are the numbers with a value.) *)
Definition finite (x : number) : Prop := exists r : R, x = num r.

(** [closestDistance] when the loop of [stationByLocation] is left. *)
Fixpoint closestDistanceAfter (userLatitude userLongitude : number)
    (stations : list Station) (closestDistance : number) : number :=
match stations with
| thisStation :: rest =>
    let thisDistance :=
      getDistance userLatitude userLongitude
        (parseFloat (gtfs_latitude thisStation))
        (parseFloat (gtfs_longitude thisStation)) in
    if (thisDistance <? closestDistance)%js then
      closestDistanceAfter userLatitude userLongitude rest thisDistance
    else closestDistanceAfter userLatitude userLongitude rest closestDistance
| [] => closestDistance
end.

(** What [closestStation] and [closestDistance] are to each other while the
    loop of [stationByLocation] runs: the distance written on the station is
    one that the station's own distance has beaten. *)
Definition lagging (userLatitude userLongitude : number) (cs : closest) (cd : number) : Prop :=
match cs with
| EmptyObject => True
| Closest s dd =>
    getDistance userLatitude userLongitude
      (parseFloat (gtfs_latitude s)) (parseFloat (gtfs_longitude s)) = cd
    /\ ltb cd dd = true
end.

(** A cache whose station list slot holds the array [l] and whose other
    slots were never written. *)
Definition cacheOf {Detail Elevator : Type} (l : list Station) : infoCache Detail Elevator :=
updateStationList emptyCache (Some {| station := Many l |}).

(** [pat] occurs in [s] at position [i]. *)
Definition occursAt (pat s : string) (i : nat) : Prop :=
String.prefix pat (drop i s) = true.

(** [s] is [pre ++ pat ++ post], and that is the first occurrence of [pat]. *)
Definition firstOccurrence (pat pre post s : string) : Prop :=
s = (pre ++ pat ++ post)%string /\
forall i, (i < String.length pre)%nat -> ~ occursAt pat s i.

Definition noOccurrence (pat s : string) : Prop :=
forall i, ~ occursAt pat s i.

(** Ascending on a string key. *)
Definition ascending {A : Type} (key : A -> string) (a b : A) : Prop :=
String.leb (key a) (key b) = true.

(** The indices of the requests of each batch, in a list of completions. *)
Fixpoint accessOrder (events : list completion) : list nat :=
match events with
| AccessDone n :: rest => n :: accessOrder rest
| InfoDone _ :: rest => accessOrder rest
| [] => []
end.

Fixpoint infoOrder (events : list completion) : list nat :=
match events with
| InfoDone n :: rest => n :: infoOrder rest
| AccessDone _ :: rest => infoOrder rest
| [] => []
end.

(** No white space in [s]. *)
Fixpoint solid (s : string) : bool :=
match s with
| EmptyString => true
| String c r => negb (isSpace c) && solid r
end.

(** The spellings of 8:00 and of 8:35 in the morning in a schedule
    document. *)
Definition eightOClock : list string :=
["8:00 AM"; "08:00 AM"; "8:00"; "08:00"]%string.

Definition eightThirtyFive : list string :=
["8:35 AM"; "08:35 AM"; "8:35"; "08:35"]%string.

(** Stations and documents used as concrete inputs. *)
Definition twelfthStreet : Station :=
{| name := "12th St. Oakland City Center"; abbr := "12TH";
   gtfs_latitude := "37.803664"; gtfs_longitude := "-122.271604" |}.

Definition nineteenthStreet : Station :=
{| name := "19th St. Oakland"; abbr := "19TH";
   gtfs_latitude := "37.80787"; gtfs_longitude := "-122.269029" |}.

(** A second record for the place of [twelfthStreet]. *)
Definition cityCenter : Station :=
{| name := "Oakland City Center"; abbr := "OCC";
   gtfs_latitude := "37.803664"; gtfs_longitude := "-122.271604" |}.

(** The query has handed an error to its callback. *)
Definition reportsError {A : Type} (o : outcome A) : Prop :=
exists e, o = Callback (Some e) None.

Section FanoutVocabulary.

Context {Detail Elevator : Type}.
Variable env_BART_API_KEY : option string.
Variable httpRequest : requestOptions -> reply.
Variable detailName : Detail -> string.

(** What one batch of a fan-out sees and writes: its own record and its own
    slot of the cache. *)
Definition batchView : Type := (@batch Detail * option (list Detail))%type.

Definition accessView (f : @fanout Detail Elevator) : batchView :=
(access f, stationAccess (cached f)).

Definition infoView (f : @fanout Detail Elevator) : batchView :=
(info f, stationInfo (cached f)).

(** What the fan-out leaves alone: the two slots it does not own. *)
Definition sameOtherSlots (f f' : @fanout Detail Elevator) : Prop :=
stationList (cached f') = stationList (cached f)
/\ elevatorStatus (cached f') = elevatorStatus (cached f).

(** The completion of request [n], on the view of its batch. *)
Definition batchComplete (parser : string -> parsed Detail) (n : nat)
    (v : batchView) : js batchView :=
match nth_error (urls (fst v)) n with
| Some url =>
    d <- fetchDetail env_BART_API_KEY httpRequest parser url ;;
    let b := pushDetail (fst v) d in
    Ret (b, if allDone b then Some (sortBy detailName (pushed b)) else snd v)
| None => Ret v
end.

Fixpoint batchRun (parser : string -> parsed Detail) (order : list nat)
    (v : batchView) : js batchView :=
match order with
| [] => Ret v
| n :: rest => v' <- batchComplete parser n v ;; batchRun parser rest v'
end.

(** The entries that the requests for [l] deliver, request by request. *)
Definition delivered (parser : string -> parsed Detail) (l : list string) : list Detail :=
flat_map (fun url =>
            match fetchDetail env_BART_API_KEY httpRequest parser url with
            | Ret d => [d]
            | Throw _ => []
            end) l.

(** The entries that the completions [order] push, in that order. *)
Definition pushedBy (parser : string -> parsed Detail) (l : list string)
    (order : list nat) : list Detail :=
flat_map (fun n =>
            match nth_error l n with
            | Some url => delivered parser [url]
            | None => []
            end) order.

(** How many completions of [order] are for a request that was made. *)
Definition requested (l : list string) (order : list nat) : nat :=
List.length (filter (fun n => (n <? List.length l)%nat) order).

End FanoutVocabulary.

(** An upstream that answers each request with the URI it was asked, and
    the parser that reads, from such an answer, the station it is about. *)
Definition echoUpstream (o : requestOptions) : reply := Body (uri o).

Definition echoParser (body : string) : parsed Station :=
if (indexOf body "orig=12TH" >? -1)%Z then Result twelfthStreet
else if (indexOf body "orig=19TH" >? -1)%Z then Result nineteenthStreet
else ParseError.

(** The same upstream, with every request about 19th Street failing. *)
Definition flakyUpstream (o : requestOptions) : reply :=
if (indexOf (uri o) "orig=19TH" >? -1)%Z then Failed else Body (uri o).

(** A cache after an earlier refresh, when the list had the two records of
    12th Street, and after the station list has been refreshed again. *)
Definition refreshedCache : infoCache Station unit :=
{| stationList := Some {| station := Many [nineteenthStreet; twelfthStreet] |};
   stationInfo := Some [twelfthStreet; cityCenter];
   stationAccess := Some [twelfthStreet; cityCenter];
   elevatorStatus := None |}.

(** The same cache after a refresh from a station list document with the one
    station 12th Street: the slot holds the bare station. *)
Definition loneStationCache : infoCache Station unit :=
{| stationList := Some {| station := Single twelfthStreet |};
   stationInfo := Some [twelfthStreet; cityCenter];
   stationAccess := Some [twelfthStreet; cityCenter];
   elevatorStatus := None |}.

(** An order in which the four requests of its fan-out may complete. *)
Definition someOrder : list completion :=
[InfoDone 1; AccessDone 1; AccessDone 0; InfoDone 0].

(** An elevator advisory that names the Coliseum station as the upstream
    does, and two parsers under which the part read from a document is its
    text. *)
Definition elevatorAdvisory : string :=
"<root><bsa><description>Elevator out of service at Coliseum/Oakland Airport.</description></bsa></root>".

Definition keepText (body : string) : parsed string := Result body.

Definition keepRoot (body : string) : parsed (option string) := Result (Some body).

Definition advisoryUpstream (o : requestOptions) : reply := Body elevatorAdvisory.

(** An upstream whose documents name the Coliseum station as the BART API
    does, and a parser of station lists that keeps the text of the document
    as the name of its one station; a second parser reads the same station
    in front of 12th Street. *)
Definition coliseumDocument : string := "<name>Coliseum/Oakland Airport</name>".

Definition coliseumUpstream (o : requestOptions) : reply := Body coliseumDocument.

Definition oneStation (body : string) : parsed (option StationList) :=
Result (Some {| station := Single {| name := body; abbr := "COLS";
                                     gtfs_latitude := "37.753661";
                                     gtfs_longitude := "-122.196869" |} |}).

Definition twoStations (body : string) : parsed (option StationList) :=
Result (Some {| station := Many [ {| name := body; abbr := "COLS";
                                     gtfs_latitude := "37.753661";
                                     gtfs_longitude := "-122.196869" |};
                                  twelfthStreet ] |}).

(** A parser of announcement documents under which the document is one
    bare announcement. *)
Definition oneAnnouncement (body : string) : parsed (bsaRoot string) :=
Result {| bsa := Single body |}.

(** A schedule document: one leg from 12th Street to 19th Street, leaving at
    8:00 and arriving at 8:35; the date of departure comes with a trailing
    blank. *)
Definition morningTrip : trip :=
{| details := {| origTimeMin := "8:00 AM"; origTimeDate := "11/02/2026 ";
                 destTimeMin := "8:35 AM"; destTimeDate := "11/02/2026";
                 duration := None |};
   legs := Single {| legDetail :=
                       {| origin := "12TH"; destination := "19TH";
                          trainHeadStation := "RICH";
                          originName := None; destinationName := None;
                          trainHeadStationName := None |} |} |}.

Definition morningParser (body : string) : parsed trip := Result morningTrip.

(* ===================================================================== *)
(** ** Vocabulary of the further properties *)
(* ===================================================================== *)

(** The term [a] of [getDistance], on real coordinates in degrees. *)
Definition haversine (latUser lonUser latStation lonStation : R) : R :=
(sin ((latStation - latUser) * (PI / 180) / 2) * sin ((latStation - latUser) * (PI / 180) / 2) +
 cos (latStation * (PI / 180)) * cos (latUser * (PI / 180)) *
 sin ((lonStation - lonUser) * (PI / 180) / 2) * sin ((lonStation - lonUser) * (PI / 180) / 2))%R.

Section MoreFanoutVocabulary.

Context {Detail : Type}.
Variable env_BART_API_KEY : option string.
Variable httpRequest : requestOptions -> reply.
Variable detailName : Detail -> string.

(** A slot after a fan-out is as it was before, or holds the whole
    aggregate: one delivered entry for each station, in ascending order of
    the names. *)
Definition allOrNothing (parser : string -> parsed Detail) (url : Station -> string)
    (stations : list Station) (before after : option (list Detail)) : Prop :=
after = before
\/ exists aggregate perStation,
     after = Some aggregate
     /\ Forall2 (fun s d => fetchDetail env_BART_API_KEY httpRequest parser (url s) = Ret d)
          stations perStation
     /\ Permutation perStation aggregate
     /\ StronglySorted (ascending detailName) aggregate.

End MoreFanoutVocabulary.

(** The legs of a trip, as the array [getConnectionData] makes of them. *)
Definition legList (t : trip) : list leg :=
match legs t with Single l => [l] | Many ls => ls end.

(** What [getConnectionData] makes of a leg, given the cached stations. *)
Definition enriched (stations : list Station) (l l' : leg) : Prop :=
origin (legDetail l') = origin (legDetail l)
/\ destination (legDetail l') = destination (legDetail l)
/\ trainHeadStation (legDetail l') = trainHeadStation (legDetail l)
/\ originName (legDetail l') = findStationName stations (origin (legDetail l))
/\ destinationName (legDetail l') = findStationName stations (destination (legDetail l))
/\ trainHeadStationName (legDetail l')
   = findStationName stations (trainHeadStation (legDetail l)).

(** An upstream that cannot be reached. *)
Definition downUpstream (o : requestOptions) : reply := Failed.
(* ===================================================================== *)
(** ** Facts about numbers and [getDistance] *)
(* ===================================================================== *)

Unset Implicit Arguments.

Section NumberFacts.

Local Open Scope R_scope.

Lemma ltb_num (a b : R) : ltb (num a) (num b) = true <-> a < b.
Proof.
unfold ltb, num. destruct (Rlt_dec a b); split; intros; try discriminate; tauto.
Qed.

Lemma ltb_true_inv (x y : number) :
  ltb x y = true -> exists a b, x = num a /\ y = num b /\ a < b.
Proof.
destruct x as [a|], y as [b|]; simpl; try discriminate.
intros H. exists a, b. repeat split. now apply ltb_num.
Qed.

Lemma ltb_irrefl (x : number) : ltb x x = false.
Proof.
destruct x as [a|]; simpl; trivial.
destruct (Rlt_dec a a); trivial. lra.
Qed.

Lemma ltb_asym (x y : number) : ltb x y = true -> ltb y x = false.
Proof.
intros H. destruct (ltb_true_inv _ _ H) as (a & b & -> & -> & Hab).
simpl. destruct (Rlt_dec b a); trivial. lra.
Qed.

Lemma ltb_trans (x y z : number) : ltb x y = true -> ltb y z = true -> ltb x z = true.
Proof.
intros H1 H2.
destruct (ltb_true_inv _ _ H1) as (a & b & -> & -> & Hab).
destruct (ltb_true_inv _ _ H2) as (b' & c & Hb & -> & Hbc).
injection Hb as <-. apply ltb_num. lra.
Qed.

Lemma ltb_NaN_l (y : number) : ltb NaN y = false.
Proof. reflexivity. Qed.

Lemma ltb_NaN_r (x : number) : ltb x NaN = false.
Proof. destruct x; reflexivity. Qed.

Lemma div_num (a b : R) : b <> 0 -> div (num a) (num b) = num (a / b).
Proof.
intros Hb. unfold div, num. destruct (Req_dec_T b 0); [contradiction | reflexivity].
Qed.

Lemma sqrt_num (a : R) : 0 <= a -> Math_sqrt (num a) = num (sqrt a).
Proof.
intros Ha. unfold Math_sqrt, num. destruct (Rlt_dec a 0); [lra | reflexivity].
Qed.

(** The angle of a point of the closed first quadrant. *)
Lemma atan2R_quadrant (y x : R) : 0 <= y -> 0 <= x -> 0 <= atan2R y x <= PI / 2.
Proof.
intros Hy Hx. unfold atan2R.
pose proof PI2_RGT_0 as Hpi.
destruct (Rlt_dec 0 x) as [Hx0|Hx0].
- assert (Hq : 0 <= y / x).
  { unfold Rdiv. apply Rmult_le_pos; [assumption|].
    left. now apply Rinv_0_lt_compat. }
  pose proof (atan_bound (y / x)) as [_ Hub].
  split; [|lra].
  destruct Hq as [Hq|Hq].
  + pose proof (atan_increasing 0 (y / x) Hq) as Hinc. rewrite atan_0 in Hinc. lra.
  + rewrite <- Hq, atan_0. lra.
- destruct (Rlt_dec x 0); [lra|].
  destruct (Rlt_dec 0 y); [lra|].
  destruct (Rlt_dec y 0); lra.
Qed.

Lemma atan2R_0_1 : atan2R 0 1 = 0.
Proof.
unfold atan2R. destruct (Rlt_dec 0 1); [|lra].
replace (0 / 1) with 0 by lra. apply atan_0.
Qed.

(** The haversine term of two points is between [0] and [1]. *)
Lemma haversine_term_bound (p q l : R) :
  0 <= sin ((q - p) / 2) * sin ((q - p) / 2) + cos q * cos p * sin l * sin l <= 1.
Proof.
pose proof (cos_2a_sin ((q - p) / 2)) as H2.
replace (2 * ((q - p) / 2)) with (q - p) in H2 by lra.
rewrite cos_minus in H2.
pose proof (cos_plus q p) as Hplus.
pose proof (COS_bound (q + p)) as [Hc1 Hc2].
pose proof (COS_bound (q - p)) as [Hd1 Hd2].
rewrite cos_minus in Hd1, Hd2.
rewrite Hplus in Hc1, Hc2.
pose proof (sin2_cos2 l) as Hsc. unfold Rsqr in Hsc.
assert (Hs0 : 0 <= sin l * sin l) by nra.
assert (Hs1 : sin l * sin l <= 1) by nra.
assert (Hh : sin ((q - p) / 2) * sin ((q - p) / 2)
             = (1 - (cos q * cos p + sin q * sin p)) / 2) by lra.
rewrite Hh.
replace (cos q * cos p * sin l * sin l) with (cos q * cos p * (sin l * sin l)) by ring.
set (s := sin l * sin l) in *.
set (A := cos q * cos p) in *.
set (B := sin q * sin p) in *.
split; nra.
Qed.

(** On numbers, [getDistance] is a number between [0] and half the
    circumference of the Earth, in miles. *)
Lemma getDistance_range (latUser lonUser latStation lonStation : R) :
  exists d, getDistance (num latUser) (num lonUser) (num latStation) (num lonStation) = num d
            /\ 0 <= d <= 6371 * PI * 0.621371.
Proof.
unfold getDistance, toRad, Math_PI.
change (Some PI) with (num PI).
rewrite (div_num PI 180) by lra.
cbn [sub mul lift2 num].
change (Some ?x) with (num x).
rewrite !(div_num _ 2) by lra.
cbn [Math_sin Math_cos lift1 mul add lift2 num].
change (Some ?x) with (num x).
set (k := PI / 180).
set (a := sin ((latStation - latUser) * k / 2) * sin ((latStation - latUser) * k / 2) +
          cos (latStation * k) * cos (latUser * k) *
          sin ((lonStation - lonUser) * k / 2) * sin ((lonStation - lonUser) * k / 2)).
assert (Ha : 0 <= a <= 1).
{ pose proof (haversine_term_bound (latUser * k) (latStation * k)
                ((lonStation - lonUser) * k / 2)) as H.
  replace ((latStation * k - latUser * k) / 2)
    with ((latStation - latUser) * k / 2) in H by lra.
  exact H. }
rewrite sqrt_num by lra.
cbn [sub lift2 num]. change (Some ?x) with (num x).
rewrite sqrt_num by lra.
cbn [Math_atan2 mul lift2 num].
eexists. split; [reflexivity|].
pose proof (atan2R_quadrant (sqrt a) (sqrt (1 - a)) (sqrt_pos _) (sqrt_pos _)) as [H0 H1].
pose proof PI_RGT_0.
split; nra.
Qed.

Lemma getDistance_below_sentinel (latUser lonUser latStation lonStation : R) :
  ltb (getDistance (num latUser) (num lonUser) (num latStation) (num lonStation))
      (num 999999.9) = true.
Proof.
destruct (getDistance_range latUser lonUser latStation lonStation) as (d & -> & _ & Hd).
apply ltb_num. pose proof PI_4. nra.
Qed.

(** The distance of a point to itself. *)
Lemma getDistance_self (lat lon : R) :
  getDistance (num lat) (num lon) (num lat) (num lon) = num 0.
Proof.
unfold getDistance, toRad, Math_PI.
change (Some PI) with (num PI).
rewrite (div_num PI 180) by lra.
cbn [sub mul lift2 num].
change (Some ?x) with (num x).
rewrite !(div_num _ 2) by lra.
cbn [Math_sin Math_cos lift1 mul add lift2 num].
change (Some ?x) with (num x).
replace ((lat - lat) * (PI / 180) / 2) with 0 by lra.
replace ((lon - lon) * (PI / 180) / 2) with 0 by lra.
rewrite sin_0.
match goal with |- context [Math_sqrt (num ?a)] => replace a with 0 by ring end.
rewrite sqrt_num by lra.
cbn [sub lift2 num]. change (Some ?x) with (num x).
replace (1 - 0) with 1 by lra.
rewrite sqrt_num by lra.
cbn [Math_atan2 mul lift2 num].
rewrite sqrt_0, sqrt_1, atan2R_0_1.
unfold num. f_equal. lra.
Qed.

Lemma getDistance_NaN_user (lonUser latStation lonStation : number) :
  getDistance NaN lonUser latStation lonStation = NaN.
Proof.
unfold getDistance, toRad, NaN.
destruct latStation, lonStation, lonUser; reflexivity.
Qed.

End NumberFacts.

(* ===================================================================== *)
(** ** The loop of [stationByLocation] *)
(* ===================================================================== *)

Lemma parseFloat_0 : parseFloat "0" = num 0.
Proof.
unfold num. vm_compute. f_equal. lra.
Qed.

Lemma Station_eq_dec (s t : Station) : {s = t} + {s <> t}.
Proof.
decide equality; apply string_dec.
Qed.

Section LoopFacts.

Variables userLatitude userLongitude : number.

Local Abbreviation dist s :=
  (getDistance userLatitude userLongitude
     (parseFloat (gtfs_latitude s)) (parseFloat (gtfs_longitude s))).
Local Abbreviation loop := (closestLoop userLatitude userLongitude).
Local Abbreviation after := (closestDistanceAfter userLatitude userLongitude).
Local Abbreviation lagging := (lagging userLatitude userLongitude).

Lemma closestLoop_lagging (l : list Station) :
  forall cs cd, lagging cs cd -> lagging (loop l cs cd) (after l cd).
Proof.
induction l as [|h r IH]; intros cs cd Hinv; simpl.
- exact Hinv.
- destruct (ltb (dist h) cd) eqn:Hlt.
  + apply IH. simpl. split; [reflexivity | exact Hlt].
  + apply IH. exact Hinv.
Qed.

(** [closestDistance] only goes down. *)
Lemma after_le (l : list Station) :
  forall cd x, ltb x cd = false -> ltb x (after l cd) = false.
Proof.
induction l as [|h r IH]; intros cd x Hx; simpl.
- exact Hx.
- destruct (ltb (dist h) cd) eqn:Hlt.
  + apply IH.
    destruct (ltb x (dist h)) eqn:Hxh; trivial.
    rewrite (ltb_trans _ _ _ Hxh Hlt) in Hx. discriminate.
  + apply IH. exact Hx.
Qed.

(** No station of the list beats the final [closestDistance]. *)
Lemma after_minimal (l : list Station) :
  forall cd t, In t l -> ltb (dist t) (after l cd) = false.
Proof.
induction l as [|h r IH]; intros cd t Hin; simpl.
- destruct Hin.
- destruct Hin as [<-|Hin].
  + destruct (ltb (dist h) cd) eqn:Hlt; apply after_le.
    * apply ltb_irrefl.
    * exact Hlt.
  + destruct (ltb (dist h) cd); now apply IH.
Qed.

(** The loop leaves [closestStation] as it was, or ends on a station of the
    list. *)
Lemma closestLoop_cases (l : list Station) :
  forall cs cd,
    (loop l cs cd = cs /\ forall s, In s l -> ltb (dist s) cd = false)
    \/ exists s dd, In s l /\ loop l cs cd = Closest s dd.
Proof.
induction l as [|h r IH]; intros cs cd; simpl.
- left. split; [reflexivity | intros s []].
- destruct (ltb (dist h) cd) eqn:Hlt.
  + right. destruct (IH (Closest h cd) (dist h)) as [[Heq _]|(s & dd & Hin & Heq)].
    * exists h, cd. split; [now left | exact Heq].
    * exists s, dd. split; [now right | exact Heq].
  + destruct (IH cs cd) as [[Heq Hall]|(s & dd & Hin & Heq)].
    * left. split; [exact Heq|]. intros s [<-|Hin]; [exact Hlt | now apply Hall].
    * right. exists s, dd. split; [now right | exact Heq].
Qed.

(** Once the loop holds a station that no later station beats, it ends on
    it. *)
Lemma closestLoop_keeps (l : list Station) (s : Station) (dd : number) :
  (forall t, In t l -> ltb (dist t) (dist s) = false) ->
  loop l (Closest s dd) (dist s) = Closest s dd.
Proof.
induction l as [|h r IH]; intros Hall; simpl.
- reflexivity.
- rewrite (Hall h (or_introl eq_refl)).
  apply IH. intros t Ht. apply Hall. now right.
Qed.

(** A station that beats the sentinel and every other station is the one
    the loop ends on, wherever it is in the list. *)
Lemma closestLoop_unique (l : list Station) (s : Station) :
  forall cs cd,
    In s l ->
    ltb (dist s) cd = true ->
    (forall t, In t l -> t <> s -> ltb (dist s) (dist t) = true \/ dist t = NaN) ->
    exists dd, loop l cs cd = Closest s dd.
Proof.
induction l as [|h r IH]; intros cs cd Hin Hs Hothers; simpl.
- destruct Hin.
- destruct (Station_eq_dec h s) as [->|Hne].
  + rewrite Hs. exists cd. apply closestLoop_keeps.
    intros t Ht. destruct (Station_eq_dec t s) as [->|Hts].
    * apply ltb_irrefl.
    * destruct (Hothers t (or_intror Ht) Hts) as [Hlt|Hnan].
      -- now apply ltb_asym.
      -- rewrite Hnan. apply ltb_NaN_l.
  + assert (Hin' : In s r) by (destruct Hin; [contradiction | assumption]).
    assert (Hothers' : forall t, In t r -> t <> s ->
                         ltb (dist s) (dist t) = true \/ dist t = NaN)
      by (intros t Ht; apply Hothers; now right).
    destruct (ltb (dist h) cd) eqn:Hlt.
    * apply IH; trivial.
      destruct (Hothers h (or_introl eq_refl) Hne) as [Hsh|Hnan]; trivial.
      rewrite Hnan in Hlt. discriminate.
    * apply IH; trivial.
Qed.

End LoopFacts.

(* ===================================================================== *)
(** ** The query engine *)
(* ===================================================================== *)

Section QueryFacts.

Context {Detail Elevator : Type}.
Local Abbreviation cache := (infoCache Detail Elevator).

Lemma stationByLocation_cached (c : cache) (sl : StationList) (lat lng : string) :
  stationList c = Some sl ->
  stationByLocation c lat lng =
  Callback None
    (Some (closestLoop (parseFloat lat) (parseFloat lng) (elements (station sl))
             EmptyObject (num 999999.9))).
Proof.
intros H. unfold stationByLocation, cachedStations, getStationList. rewrite H. reflexivity.
Qed.

(** The station that [stationByLocation] returns is one of the cached
    list that no other station beats, and the [distance] written on it is
    not its own: the station's distance is strictly below it. *)
Lemma stationByLocation_distance_lags (c : cache) (lat lng : string)
    (s : Station) (dd : number) :
  stationByLocation c lat lng = Callback None (Some (Closest s dd)) ->
  exists sl, stationList c = Some sl
    /\ In s (elements (station sl))
    /\ (forall t, In t (elements (station sl)) ->
          ltb (stationDistance lat lng t) (stationDistance lat lng s) = false)
    /\ ltb (stationDistance lat lng s) dd = true.
Proof.
intros H. destruct (stationList c) as [sl|] eqn:Hsl.
2:{ unfold stationByLocation, cachedStations, getStationList in H.
    rewrite Hsl in H. discriminate. }
rewrite (stationByLocation_cached c sl lat lng Hsl) in H.
injection H as H. exists sl. split; [reflexivity|].
set (ulat := parseFloat lat) in *. set (ulng := parseFloat lng) in *.
pose proof (closestLoop_lagging ulat ulng (elements (station sl)) EmptyObject (num 999999.9) I) as Hlag.
rewrite H in Hlag. simpl in Hlag. destruct Hlag as [Hd Hlt].
destruct (closestLoop_cases ulat ulng (elements (station sl)) EmptyObject (num 999999.9))
  as [[Heq _]|(s' & dd' & Hin & Heq)].
- rewrite H in Heq. discriminate.
- rewrite H in Heq. injection Heq as <- <-.
  unfold stationDistance. fold ulat ulng. repeat split.
  + exact Hin.
  + intros t Ht. rewrite Hd. now apply after_minimal.
  + rewrite Hd. exact Hlt.
Qed.

End QueryFacts.

Lemma getDistance_numeric (a b c d : number) :
  numeric (getDistance a b c d) ->
  exists ra rb rc rd, a = num ra /\ b = num rb /\ c = num rc /\ d = num rd.
Proof.
unfold numeric, NaN. intros H.
destruct a as [ra|], b as [rb|], c as [rc|], d as [rd|];
  try (exfalso; apply H; clear H;
       unfold getDistance, toRad, Math_PI;
       change (Some PI) with (num PI); rewrite (div_num PI 180) by lra;
       cbn [sub mul lift2 num];
       repeat match goal with
              | |- context [div (Some ?x) (num 2)] =>
                  change (div (Some x) (num 2)) with (div (num x) (num 2));
                  rewrite (div_num x 2) by lra
              end;
       reflexivity).
now exists ra, rb, rc, rd.
Qed.

Lemma numeric_num (x : number) : numeric x -> exists r, x = num r.
Proof.
destruct x as [r|]; intros H; [now exists r | now elim H].
Qed.

Lemma stationDistance_self (lat lng : string) (s : Station) :
  numeric (parseFloat lat) -> numeric (parseFloat lng) ->
  gtfs_latitude s = lat -> gtfs_longitude s = lng ->
  stationDistance lat lng s = num 0.
Proof.
intros Hlat Hlng Hs1 Hs2. unfold stationDistance. rewrite Hs1, Hs2.
destruct (numeric_num _ Hlat) as [a ->], (numeric_num _ Hlng) as [b ->].
apply getDistance_self.
Qed.

Lemma numeric_twelfth :
  numeric (parseFloat "37.803664") /\ numeric (parseFloat "-122.271604").
Proof. split; vm_compute; discriminate. Qed.

(** C2 fails on the code: a query made while the station list slot is still
    [undefined] hands nothing to its callback; reading [.station] throws. *)
Lemma C2_counterexample :
  getStations (emptyCache (Detail := unit) (Elevator := unit)) = Throws TypeError
  /\ stationByLocation (emptyCache (Detail := unit) (Elevator := unit))
       "37.803664" "-122.271604" = Throws TypeError
  /\ ~ reportsError (getStations (emptyCache (Detail := unit) (Elevator := unit)))
  /\ ~ reportsError (stationByLocation (emptyCache (Detail := unit) (Elevator := unit))
                       "37.803664" "-122.271604").
Proof.
repeat split; try reflexivity; intros [e He]; discriminate He.
Qed.

(** C2, amended: for every cache whose station list slot has not been
    written, [getStations] and [stationByLocation] throw a [TypeError] to
    their caller and do not call back. *)
Theorem C2_query_before_refresh_throws {Detail Elevator : Type}
    (c : infoCache Detail Elevator) (lat lng : string) :
  getStationList c = None ->
  getStations c = Throws TypeError
  /\ stationByLocation c lat lng = Throws TypeError.
Proof.
intros H. unfold getStations, stationByLocation, cachedStations.
rewrite H. split; reflexivity.
Qed.

Lemma C2_query_before_refresh_throws_witness :
  getStations (emptyCache (Detail := unit) (Elevator := unit)) = Throws TypeError
  /\ stationByLocation (emptyCache (Detail := unit) (Elevator := unit)) "0" "0"
     = Throws TypeError.
Proof.
apply (C2_query_before_refresh_throws emptyCache "0" "0"). reflexivity.
Defined.

Lemma findStationName_first (pre post : list Station) (s : Station) (a : string) :
  abbr s = a ->
  (forall t, In t pre -> abbr t <> a) ->
  findStationName (pre ++ s :: post) a = Some (name s).
Proof.
intros Hs. induction pre as [|h pre IH]; intros Hpre; simpl.
- rewrite Hs, String.eqb_refl. reflexivity.
- destruct (String.eqb (abbr h) a) eqn:Hh.
  + apply String.eqb_eq in Hh. elim (Hpre h (or_introl eq_refl) Hh).
  + apply IH. intros t Ht. apply Hpre. now right.
Qed.

Lemma findStationName_none (l : list Station) (a : string) :
  (forall t, In t l -> abbr t <> a) -> findStationName l a = None.
Proof.
induction l as [|h r IH]; intros Hnone; simpl.
- reflexivity.
- destruct (String.eqb (abbr h) a) eqn:Hh.
  + apply String.eqb_eq in Hh. elim (Hnone h (or_introl eq_refl) Hh).
  + apply IH. intros t Ht. apply Hnone. now right.
Qed.

(** A list with a station of abbreviation [a] has a first one. *)
Lemma first_with_abbr (l : list Station) (a : string) :
  (exists s, In s l /\ abbr s = a) ->
  exists pre s post,
    l = pre ++ s :: post /\ abbr s = a /\ forall t, In t pre -> abbr t <> a.
Proof.
induction l as [|h r IH]; intros (s & Hin & Hs).
- destruct Hin.
- destruct (string_dec (abbr h) a) as [Hh|Hh].
  + exists [], h, r. repeat split; trivial. intros t [].
  + destruct Hin as [->|Hin]; [contradiction|].
    destruct IH as (pre & s' & post & -> & Hs' & Hpre); [now exists s|].
    exists (h :: pre), s', post. repeat split; trivial.
    intros t [<-|Ht]; [exact Hh | now apply Hpre].
Qed.

(** X20: on a cached station list, [getStationName] looks the abbreviation
    up among the elements of the station array: it returns the name of the
    first station whose abbreviation is the argument, so the name of a
    station with that abbreviation whenever the array has one, and
    [undefined] when it has none.  A list cached as a bare station has no
    elements, and every lookup in it is [undefined]. *)
Theorem X20_getStationName_array_lookup {Detail Elevator : Type}
    (c : infoCache Detail Elevator) (sl : StationList) (a : string) :
  getStationList c = Some sl ->
  (forall pre s post,
      elements (station sl) = pre ++ s :: post ->
      abbr s = a ->
      (forall t, In t pre -> abbr t <> a) ->
      getStationName c a = Ret (Some (name s)))
  /\ ((exists s, In s (elements (station sl)) /\ abbr s = a) ->
      exists s, In s (elements (station sl)) /\ abbr s = a
                /\ getStationName c a = Ret (Some (name s)))
  /\ ((forall t, In t (elements (station sl)) -> abbr t <> a) ->
      getStationName c a = Ret None).
Proof.
intros Hc. unfold getStationName, cachedStations. rewrite Hc. simpl.
repeat split.
- intros pre s post Hl Hs Hpre. rewrite Hl.
  now rewrite (findStationName_first pre post s a Hs Hpre).
- intros Hex.
  destruct (first_with_abbr (elements (station sl)) a Hex)
    as (pre & s & post & Hl & Hs & Hpre).
  exists s. rewrite Hl. repeat split; trivial.
  + apply in_or_app. right. now left.
  + now rewrite (findStationName_first pre post s a Hs Hpre).
- intros Hnone. now rewrite (findStationName_none (elements (station sl)) a Hnone).
Qed.

Lemma X20_getStationName_array_lookup_witness :
  getStationName
    (cacheOf (Detail := unit) (Elevator := unit) [twelfthStreet; nineteenthStreet]) "19TH"
  = Ret (Some "19th St. Oakland"%string)
  /\ getStationName
       (cacheOf (Detail := unit) (Elevator := unit) [twelfthStreet; nineteenthStreet]) "SFIA"
     = Ret None.
Proof.
split.
- apply (proj1 (X20_getStationName_array_lookup
           (cacheOf (Detail := unit) (Elevator := unit) [twelfthStreet; nineteenthStreet])
           {| station := Many [twelfthStreet; nineteenthStreet] |} "19TH" eq_refl)
           [twelfthStreet] nineteenthStreet []); try reflexivity.
  intros t [<-|[]]. simpl. discriminate.
- apply (proj2 (proj2 (X20_getStationName_array_lookup
           (cacheOf (Detail := unit) (Elevator := unit) [twelfthStreet; nineteenthStreet])
           {| station := Many [twelfthStreet; nineteenthStreet] |} "SFIA" eq_refl))).
  intros t [<-|[<-|[]]]; simpl; discriminate.
Defined.

(** C9: the code breaks the claim on a station list with one station.  The
    slot then holds the bare station, which has no [length]: the loop of
    [getStationName] is not entered, and the lookup of the abbreviation of
    the very station that is cached returns [undefined]. *)
Theorem C9_getStationName_misses_lone_station {Detail Elevator : Type}
    (c : infoCache Detail Elevator) (sl : StationList) (s : Station) :
  getStationList c = Some sl ->
  station sl = Single s ->
  getStationName c (abbr s) = Ret None.
Proof.
intros Hc Hs. unfold getStationName, cachedStations. rewrite Hc. simpl.
rewrite Hs. reflexivity.
Qed.

Lemma C9_getStationName_misses_lone_station_witness :
  getStationName loneStationCache "12TH" = Ret None.
Proof.
exact (C9_getStationName_misses_lone_station loneStationCache
         {| station := Single twelfthStreet |} twelfthStreet eq_refl eq_refl).
Defined.

Lemma stationDistance_below_sentinel (lat lng : string) (s : Station) :
  numeric (parseFloat lat) -> numeric (parseFloat lng) ->
  numeric (parseFloat (gtfs_latitude s)) -> numeric (parseFloat (gtfs_longitude s)) ->
  ltb (stationDistance lat lng s) (num 999999.9) = true.
Proof.
intros H1 H2 H3 H4. unfold stationDistance.
destruct (numeric_num _ H1) as [a ->], (numeric_num _ H2) as [b ->],
         (numeric_num _ H3) as [c ->], (numeric_num _ H4) as [d ->].
apply getDistance_below_sentinel.
Qed.

Lemma stationDistance_numeric_below_sentinel (lat lng : string) (s : Station) :
  numeric (stationDistance lat lng s) ->
  ltb (stationDistance lat lng s) (num 999999.9) = true.
Proof.
intros H. unfold stationDistance in *.
destruct (getDistance_numeric _ _ _ _ H) as (a & b & c & d & -> & -> & -> & ->).
apply getDistance_below_sentinel.
Qed.


(** Whatever the cached list, a query with a coordinate that is not a
    number gets the empty object. *)
Lemma stationByLocation_NaN_query {Detail Elevator : Type}
    (c : infoCache Detail Elevator) (sl : StationList) (lat lng : string) :
  getStationList c = Some sl ->
  parseFloat lat = NaN \/ parseFloat lng = NaN ->
  stationByLocation c lat lng = Callback None (Some EmptyObject).
Proof.
intros Hc Hnan. rewrite (stationByLocation_cached c sl lat lng Hc).
destruct (closestLoop_cases (parseFloat lat) (parseFloat lng) (elements (station sl))
            EmptyObject (num 999999.9)) as [[Heq _]|(s & dd & Hin & Heq)].
- now rewrite Heq.
- exfalso.
  pose proof (closestLoop_lagging (parseFloat lat) (parseFloat lng) (elements (station sl))
                EmptyObject (num 999999.9) I) as Hlag.
  rewrite Heq in Hlag. destruct Hlag as [Hd Hlt].
  destruct (ltb_true_inv _ _ Hlt) as (a & b & Ha & _ & _).
  rewrite <- Hd in Ha.
  assert (Hnum : numeric (getDistance (parseFloat lat) (parseFloat lng)
                            (parseFloat (gtfs_latitude s))
                            (parseFloat (gtfs_longitude s))))
    by (rewrite Ha; discriminate).
  destruct (getDistance_numeric _ _ _ _ Hnum) as (ra & rb & _ & _ & Hra & Hrb & _).
  destruct Hnan as [H|H]; [rewrite H in Hra | rewrite H in Hrb]; discriminate.
Qed.



(** C8 fails on the code: two stations at the same distance from the query
    point come back in the order of the list. *)
Lemma C8_counterexample :
  Permutation [twelfthStreet; cityCenter] [cityCenter; twelfthStreet]
  /\ stationByLocation
       (cacheOf (Detail := unit) (Elevator := unit) [twelfthStreet; cityCenter])
       "37.803664" "-122.271604"
     = Callback None (Some (Closest twelfthStreet (num 999999.9)))
  /\ stationByLocation
       (cacheOf (Detail := unit) (Elevator := unit) [cityCenter; twelfthStreet])
       "37.803664" "-122.271604"
     = Callback None (Some (Closest cityCenter (num 999999.9)))
  /\ twelfthStreet <> cityCenter.
Proof.
destruct numeric_twelfth as [Hlat Hlng].
assert (H12 : stationDistance "37.803664" "-122.271604" twelfthStreet = num 0)
  by (now apply stationDistance_self).
assert (Hcc : stationDistance "37.803664" "-122.271604" cityCenter = num 0)
  by (now apply stationDistance_self).
assert (Hlt : ltb (num 0) (num 999999.9) = true) by (apply ltb_num; lra).
unfold stationDistance in H12, Hcc.
split; [apply perm_swap|]. split; [|split].
- rewrite (stationByLocation_cached _ {| station := Many [twelfthStreet; cityCenter] |})
    by reflexivity.
  cbn [station elements closestLoop]. rewrite H12, Hcc, Hlt, ltb_irrefl. reflexivity.
- rewrite (stationByLocation_cached _ {| station := Many [cityCenter; twelfthStreet] |})
    by reflexivity.
  cbn [station elements closestLoop]. rewrite H12, Hcc, Hlt, ltb_irrefl. reflexivity.
- discriminate.
Qed.

(** C8, amended: when the cached list is an array and one of its stations
    is strictly nearer to the query point than every other one,
    [stationByLocation] returns that station for every order of the array. *)
Theorem C8_nearest_station_order_independent {Detail Elevator : Type}
    (c c' : infoCache Detail Elevator) (sl sl' : StationList)
    (lat lng : string) (s : Station) :
  getStationList c = Some sl ->
  getStationList c' = Some sl' ->
  Permutation (elements (station sl)) (elements (station sl')) ->
  In s (elements (station sl)) ->
  numeric (stationDistance lat lng s) ->
  (forall t, In t (elements (station sl)) -> t <> s ->
     ltb (stationDistance lat lng s) (stationDistance lat lng t) = true
     \/ stationDistance lat lng t = NaN) ->
  exists dd dd',
    stationByLocation c lat lng = Callback None (Some (Closest s dd))
    /\ stationByLocation c' lat lng = Callback None (Some (Closest s dd')).
Proof.
intros Hc Hc' Hperm Hin Hnum Hothers.
pose proof (stationDistance_numeric_below_sentinel lat lng s Hnum) as Hlt.
rewrite (stationByLocation_cached c sl lat lng Hc).
rewrite (stationByLocation_cached c' sl' lat lng Hc').
destruct (closestLoop_unique (parseFloat lat) (parseFloat lng) (elements (station sl)) s
            EmptyObject (num 999999.9) Hin Hlt Hothers) as [dd Hdd].
destruct (closestLoop_unique (parseFloat lat) (parseFloat lng) (elements (station sl')) s
            EmptyObject (num 999999.9)) as [dd' Hdd'].
- now apply (Permutation_in _ Hperm).
- exact Hlt.
- intros t Ht. apply Hothers. now apply (Permutation_in _ (Permutation_sym Hperm)).
- exists dd, dd'. now rewrite Hdd, Hdd'.
Qed.

Section Positive.

Local Open Scope R_scope.

Lemma atan2R_pos (y x : R) : 0 < y -> 0 <= x -> 0 < atan2R y x.
Proof.
intros Hy Hx. unfold atan2R. pose proof PI2_RGT_0.
destruct (Rlt_dec 0 x) as [Hx0|Hx0].
- assert (Hq : 0 < y / x) by (apply Rdiv_lt_0_compat; assumption).
  pose proof (atan_increasing 0 (y / x) Hq) as Hinc. rewrite atan_0 in Hinc. exact Hinc.
- destruct (Rlt_dec x 0); [lra|].
  destruct (Rlt_dec 0 y); lra.
Qed.

(** Two points in the latitudes of the Earth, the second one north of the
    first, are at a positive distance. *)
Lemma getDistance_pos (latUser lonUser latStation lonStation : R) :
  -90 <= latUser -> latUser < latStation -> latStation <= 90 ->
  exists d, getDistance (num latUser) (num lonUser) (num latStation) (num lonStation) = num d
            /\ 0 < d.
Proof.
intros Hlo Hlt Hhi.
unfold getDistance, toRad, Math_PI.
change (Some PI) with (num PI).
rewrite (div_num PI 180) by lra.
cbn [sub mul lift2 num].
change (Some ?x) with (num x).
rewrite !(div_num _ 2) by lra.
cbn [Math_sin Math_cos lift1 mul add lift2 num].
change (Some ?x) with (num x).
set (k := PI / 180).
pose proof PI_RGT_0 as Hpi.
assert (Hk : 0 < k) by (unfold k; lra).
set (x := (latStation - latUser) * k / 2).
set (l := (lonStation - lonUser) * k / 2).
assert (Hx : 0 < x < PI) by (unfold x, k; split; nra).
pose proof (sin_gt_0 x (proj1 Hx) (proj2 Hx)) as Hsin.
assert (Hc1 : 0 <= cos (latStation * k))
  by (apply cos_ge_0; unfold k; nra).
assert (Hc2 : 0 <= cos (latUser * k))
  by (apply cos_ge_0; unfold k; nra).
set (a := sin x * sin x + cos (latStation * k) * cos (latUser * k) * sin l * sin l).
assert (Ha : 0 < a <= 1).
{ split.
  - unfold a.
    assert (0 <= cos (latStation * k) * cos (latUser * k) * sin l * sin l).
    { replace (cos (latStation * k) * cos (latUser * k) * sin l * sin l)
        with ((cos (latStation * k) * cos (latUser * k)) * (sin l * sin l)) by ring.
      apply Rmult_le_pos; [now apply Rmult_le_pos | nra]. }
    nra.
  - pose proof (haversine_term_bound (latUser * k) (latStation * k) l) as H.
    replace ((latStation * k - latUser * k) / 2) with x in H by (unfold x; lra).
    exact (proj2 H). }
rewrite sqrt_num by lra.
cbn [sub lift2 num]. change (Some ?x) with (num x).
rewrite sqrt_num by lra.
cbn [Math_atan2 mul lift2 num].
eexists. split; [reflexivity|].
pose proof (atan2R_pos (sqrt a) (sqrt (1 - a)) (sqrt_lt_R0 a (proj1 Ha)) (sqrt_pos _)).
nra.
Qed.

End Positive.

Lemma nineteenth_is_farther :
  ltb (stationDistance "37.803664" "-122.271604" twelfthStreet)
      (stationDistance "37.803664" "-122.271604" nineteenthStreet) = true.
Proof.
destruct numeric_twelfth as [Hlat Hlng].
rewrite (stationDistance_self "37.803664" "-122.271604" twelfthStreet Hlat Hlng eq_refl eq_refl).
unfold stationDistance.
assert (E1 : parseFloat "37.803664" = num (37803664 / 1000000))
  by (unfold num; cbv -[IZR powerRZ Rmult Ropp Rdiv]; f_equal; simpl; lra).
assert (E2 : parseFloat "-122.271604" = num (- (122271604 / 1000000)))
  by (unfold num; cbv -[IZR powerRZ Rmult Ropp Rdiv]; f_equal; simpl; lra).
assert (E3 : parseFloat (gtfs_latitude nineteenthStreet) = num (3780787 / 100000))
  by (unfold num; cbv -[IZR powerRZ Rmult Ropp Rdiv]; f_equal; simpl; lra).
assert (E4 : parseFloat (gtfs_longitude nineteenthStreet) = num (- (122269029 / 1000000)))
  by (unfold num; cbv -[IZR powerRZ Rmult Ropp Rdiv]; f_equal; simpl; lra).
rewrite E1, E2, E3, E4.
destruct (getDistance_pos (37803664 / 1000000) (- (122271604 / 1000000))
            (3780787 / 100000) (- (122269029 / 1000000)))
  as (d & -> & Hd); try lra.
now apply ltb_num.
Qed.

(** A query from 12th Street with 19th Street first in the cached list: 19th
    Street is taken first, then 12th Street, which comes back with the
    distance to 19th Street written on it. *)
Lemma query_from_twelfth :
  stationByLocation
    (cacheOf (Detail := unit) (Elevator := unit) [nineteenthStreet; twelfthStreet])
    "37.803664" "-122.271604"
  = Callback None
      (Some (Closest twelfthStreet
               (stationDistance "37.803664" "-122.271604" nineteenthStreet))).
Proof.
destruct numeric_twelfth as [Hlat Hlng].
pose proof nineteenth_is_farther as Hfar.
rewrite (stationDistance_self "37.803664" "-122.271604" twelfthStreet
           Hlat Hlng eq_refl eq_refl) in Hfar.
assert (Hnum : numeric (stationDistance "37.803664" "-122.271604" nineteenthStreet)).
{ destruct (ltb_true_inv _ _ Hfar) as (a & b & _ & -> & _). discriminate. }
pose proof (stationDistance_numeric_below_sentinel _ _ _ Hnum) as Hlt.
rewrite (stationByLocation_cached _ {| station := Many [nineteenthStreet; twelfthStreet] |})
  by reflexivity.
cbn [station elements closestLoop].
change (getDistance _ _ (parseFloat (gtfs_latitude nineteenthStreet)) _)
  with (stationDistance "37.803664" "-122.271604" nineteenthStreet).
rewrite Hlt.
change (getDistance _ _ (parseFloat (gtfs_latitude twelfthStreet)) _)
  with (stationDistance "37.803664" "-122.271604" twelfthStreet).
rewrite (stationDistance_self "37.803664" "-122.271604" twelfthStreet
           Hlat Hlng eq_refl eq_refl).
rewrite Hfar. reflexivity.
Qed.

(** C1: [stationByLocation] does find the station with the minimum
    distance, but the distance it pairs with it is not that station's.
    With 19th Street and 12th Street cached in that order and the query
    point on 12th Street, 12th Street comes back, as it should, with the
    distance to 19th Street written on it, while its own distance is 0 and
    that of 19th Street is not. *)
Theorem C1_stationByLocation_wrong_distance :
  stationByLocation
    (cacheOf (Detail := unit) (Elevator := unit) [nineteenthStreet; twelfthStreet])
    "37.803664" "-122.271604"
  = Callback None
      (Some (Closest twelfthStreet
               (stationDistance "37.803664" "-122.271604" nineteenthStreet)))
  /\ stationDistance "37.803664" "-122.271604" twelfthStreet = num 0
  /\ ltb (num 0) (stationDistance "37.803664" "-122.271604" nineteenthStreet) = true.
Proof.
destruct numeric_twelfth as [Hlat Hlng].
assert (Hd : stationDistance "37.803664" "-122.271604" twelfthStreet = num 0)
  by (now apply stationDistance_self).
split; [exact query_from_twelfth|]. split; [exact Hd|].
rewrite <- Hd. exact nineteenth_is_farther.
Qed.

Lemma C8_nearest_station_order_independent_witness :
  exists dd dd',
    stationByLocation
      (cacheOf (Detail := unit) (Elevator := unit) [twelfthStreet; nineteenthStreet])
      "37.803664" "-122.271604"
    = Callback None (Some (Closest twelfthStreet dd))
    /\ stationByLocation
         (cacheOf (Detail := unit) (Elevator := unit) [nineteenthStreet; twelfthStreet])
         "37.803664" "-122.271604"
       = Callback None (Some (Closest twelfthStreet dd')).
Proof.
apply (C8_nearest_station_order_independent
         (cacheOf (Detail := unit) (Elevator := unit) [twelfthStreet; nineteenthStreet])
         (cacheOf (Detail := unit) (Elevator := unit) [nineteenthStreet; twelfthStreet])
         {| station := Many [twelfthStreet; nineteenthStreet] |}
         {| station := Many [nineteenthStreet; twelfthStreet] |}
         "37.803664" "-122.271604" twelfthStreet eq_refl eq_refl).
- apply perm_swap.
- now left.
- destruct numeric_twelfth as [Hlat Hlng].
  rewrite (stationDistance_self "37.803664" "-122.271604" twelfthStreet
             Hlat Hlng eq_refl eq_refl).
  discriminate.
- intros t [<-|[<-|[]]] Hne; [now elim Hne|].
  left. exact nineteenth_is_farther.
Defined.

(* ===================================================================== *)
(** ** [_.sortBy] *)
(* ===================================================================== *)

Lemma compare_same (a b : string) : String.compare a b = String_as_OT.compare a b.
Proof.
revert b. induction a as [|x a IH]; destruct b as [|y b]; simpl; trivial.
Qed.

(** The order of strings under [<=] is transitive. *)
Lemma leb_trans (a b c : string) :
  String.leb a b = true -> String.leb b c = true -> String.leb a c = true.
Proof.
unfold String.leb. intros H1 H2.
destruct (String_as_OT.compare_spec a b) as [Hab|Hab|Hab].
- red in Hab. now subst.
- destruct (String_as_OT.compare_spec b c) as [Hbc|Hbc|Hbc].
  + red in Hbc. subst. unfold String_as_OT.lt in Hab.
    rewrite <- compare_same in Hab. now rewrite Hab.
  + pose proof (@StrictOrder_Transitive _ _ String_as_OT.lt_strorder _ _ _ Hab Hbc) as H.
    unfold String_as_OT.lt in H. rewrite <- compare_same in H. now rewrite H.
  + unfold String_as_OT.lt in Hbc. rewrite <- compare_same in Hbc.
    rewrite String.compare_antisym, Hbc in H2. discriminate.
- unfold String_as_OT.lt in Hab. rewrite <- compare_same in Hab.
  rewrite String.compare_antisym, Hab in H1. discriminate.
Qed.

Section SortByFacts.

Context {A : Type}.
Variable key : A -> string.

Lemma insertBy_perm (x : A) (l : list A) : Permutation (x :: l) (insertBy key x l).
Proof.
induction l as [|y r IH]; simpl.
- apply Permutation_refl.
- destruct (String.leb (key x) (key y)).
  + apply Permutation_refl.
  + apply perm_trans with (y :: x :: r); [apply perm_swap|].
    now apply perm_skip.
Qed.

Lemma sortBy_perm (l : list A) : Permutation l (sortBy key l).
Proof.
induction l as [|x r IH]; simpl.
- apply perm_nil.
- apply perm_trans with (x :: sortBy key r).
  + now apply perm_skip.
  + apply insertBy_perm.
Qed.

Lemma insertBy_hd (x a : A) (l : list A) :
  ascending key a x -> HdRel (ascending key) a l ->
  HdRel (ascending key) a (insertBy key x l).
Proof.
intros Hax Hal. destruct l as [|y r]; simpl.
- now constructor.
- destruct (String.leb (key x) (key y)); constructor; trivial.
  now inversion Hal.
Qed.

Lemma insertBy_sorted (x : A) (l : list A) :
  Sorted (ascending key) l -> Sorted (ascending key) (insertBy key x l).
Proof.
induction 1 as [|y r Hs IH Hhd]; simpl.
- repeat constructor.
- destruct (String.leb (key x) (key y)) eqn:Hxy.
  + constructor; [now constructor|]. now constructor.
  + constructor; [exact IH|].
    apply insertBy_hd; trivial.
    unfold ascending. destruct (String.leb_total (key x) (key y)) as [H|H]; trivial.
    rewrite H in Hxy. discriminate.
Qed.

Lemma sortBy_sorted (l : list A) : Sorted (ascending key) (sortBy key l).
Proof.
induction l as [|x r IH]; simpl.
- constructor.
- now apply insertBy_sorted.
Qed.

Lemma ascending_trans : Transitive (ascending key).
Proof.
intros a b c. unfold ascending. apply leb_trans.
Qed.

Lemma sortBy_strongly_sorted (l : list A) : StronglySorted (ascending key) (sortBy key l).
Proof.
apply Sorted_StronglySorted; [exact ascending_trans | apply sortBy_sorted].
Qed.

Lemma sortBy_length (l : list A) : List.length (sortBy key l) = List.length l.
Proof.
symmetry. apply Permutation_length, sortBy_perm.
Qed.

End SortByFacts.

(* ===================================================================== *)
(** ** One batch of the fan-out *)
(* ===================================================================== *)

Section BatchFacts.

Context {Detail Elevator : Type}.
Variable env_BART_API_KEY : option string.
Variable httpRequest : requestOptions -> reply.
Variable detailName : Detail -> string.
Variable parser : string -> parsed Detail.

Local Abbreviation fetch := (fetchDetail env_BART_API_KEY httpRequest parser).
Local Abbreviation finish := (batchComplete env_BART_API_KEY httpRequest detailName parser).
Local Abbreviation runBatch := (batchRun env_BART_API_KEY httpRequest detailName parser).
Local Abbreviation entries := (delivered env_BART_API_KEY httpRequest parser).
Local Abbreviation pushes := (pushedBy env_BART_API_KEY httpRequest parser).

(** A request that fails makes its callback throw. *)
Lemma failed_request_throws (url : string) :
  httpRequest (buildHttpRequestOptions env_BART_API_KEY url) = Failed ->
  fetch url = Throw TypeError.
Proof.
intros H. unfold fetchDetail. rewrite H. simpl.
destruct (indexOf url "COLS" >? -1)%Z; reflexivity.
Qed.

(** So does a body that does not parse. *)
Lemma unparsable_body_throws (url body : string) :
  httpRequest (buildHttpRequestOptions env_BART_API_KEY url) = Body body ->
  parser body = ParseError ->
  parser (join coliseum (split rawColiseum body)) = ParseError ->
  fetch url = Throw TypeError.
Proof.
intros H Hp Hp'. unfold fetchDetail. rewrite H. simpl.
destruct (indexOf url "COLS" >? -1)%Z; simpl; [rewrite Hp' | rewrite Hp]; reflexivity.
Qed.

Lemma batchComplete_urls (n : nat) (v v' : batchView) :
  finish n v = Ret v' -> urls (fst v') = urls (fst v).
Proof.
unfold batchComplete. destruct (nth_error (urls (fst v)) n) as [url|].
- destruct (fetch url) as [d|e]; simpl; [|discriminate].
  intros H. injection H as <-. reflexivity.
- intros H. injection H as <-. reflexivity.
Qed.

(** While the completions of a batch are fewer than its requests, its slot
    of the cache is not written. *)
Lemma batchRun_slot_kept (order : list nat) :
  forall v v',
    runBatch order v = Ret v' ->
    (completed (fst v) + requested (urls (fst v)) order < List.length (urls (fst v)))%nat ->
    snd v' = snd v.
Proof.
induction order as [|n rest IH]; intros v v' Hrun Hlt; simpl in Hrun.
- injection Hrun as <-. reflexivity.
- destruct (finish n v) as [v1|e] eqn:Hstep; simpl in Hrun; [|discriminate].
  pose proof (batchComplete_urls n v v1 Hstep) as Hurls.
  unfold requested in Hlt. simpl in Hlt.
  unfold batchComplete in Hstep.
  destruct (nth_error (urls (fst v)) n) as [url|] eqn:Hnth.
  + assert (Hn : (n <? List.length (urls (fst v)))%nat = true).
    { apply Nat.ltb_lt, nth_error_Some. rewrite Hnth. discriminate. }
    rewrite Hn in Hlt. simpl in Hlt.
    destruct (fetch url) as [d|e]; simpl in Hstep; [|discriminate].
    injection Hstep as <-. simpl in *.
    rewrite (IH _ _ Hrun); simpl.
    * unfold allDone; simpl.
      destruct (Nat.leb_spec (List.length (urls (fst v))) (S (completed (fst v))));
        [lia | reflexivity].
    * unfold requested. lia.
  + assert (Hn : (n <? List.length (urls (fst v)))%nat = false).
    { apply Nat.ltb_ge, nth_error_None. exact Hnth. }
    rewrite Hn in Hlt. injection Hstep as <-.
    apply (IH _ _ Hrun). exact Hlt.
Qed.

(** A run that does not throw has completed no request that fails. *)
Lemma batchRun_all_delivered (order : list nat) :
  forall v v' i url e,
    runBatch order v = Ret v' ->
    nth_error (urls (fst v)) i = Some url ->
    fetch url = Throw e ->
    ~ In i order.
Proof.
induction order as [|n rest IH]; intros v v' i url e Hrun Hnth Hfail Hin; simpl in Hrun.
- destruct Hin.
- destruct (finish n v) as [v1|e1] eqn:Hstep; simpl in Hrun; [|discriminate].
  pose proof (batchComplete_urls n v v1 Hstep) as Hurls.
  destruct Hin as [->|Hin].
  + unfold batchComplete in Hstep. rewrite Hnth, Hfail in Hstep. discriminate.
  + apply (IH v1 v' i url e Hrun); trivial. now rewrite Hurls.
Qed.

Lemma requested_bound (l : list string) (order : list nat) (i : nat) :
  NoDup order -> ~ In i order -> (i < List.length l)%nat ->
  (requested l order < List.length l)%nat.
Proof.
intros Hnd Hni Hi. unfold requested.
set (valid := filter (fun n => (n <? List.length l)%nat) order).
assert (Hnd' : NoDup (i :: valid)).
{ constructor.
  - unfold valid. rewrite filter_In. tauto.
  - now apply NoDup_filter. }
assert (Hincl : incl (i :: valid) (seq 0 (List.length l))).
{ intros n [<-|Hn]; apply in_seq.
  - lia.
  - unfold valid in Hn. apply filter_In in Hn. destruct Hn as [_ Hn].
    apply Nat.ltb_lt in Hn. lia. }
pose proof (NoDup_incl_length Hnd' Hincl) as Hlen.
rewrite length_seq in Hlen. simpl in Hlen. lia.
Qed.

(** A batch one of whose requests fails never writes its slot. *)
Lemma batchRun_failing_keeps_slot (order : list nat) (v v' : batchView)
    (i : nat) (url : string) (e : exn) :
  runBatch order v = Ret v' ->
  completed (fst v) = 0%nat ->
  NoDup order ->
  nth_error (urls (fst v)) i = Some url ->
  fetch url = Throw e ->
  snd v' = snd v.
Proof.
intros Hrun H0 Hnd Hnth Hfail.
apply (batchRun_slot_kept order v v' Hrun).
rewrite H0. simpl.
apply (requested_bound _ _ i Hnd).
- exact (batchRun_all_delivered order v v' i url e Hrun Hnth Hfail).
- apply nth_error_Some. rewrite Hnth. discriminate.
Qed.

(** When every request completed by [order] delivers and these are all the
    requests still out, the batch ends on the sorted aggregate. *)
Lemma batchRun_all_done (order : list nat) :
  forall v,
    (forall n, In n order ->
       exists url d, nth_error (urls (fst v)) n = Some url /\ fetch url = Ret d) ->
    (completed (fst v) + List.length order = List.length (urls (fst v)))%nat ->
    exists b,
      runBatch order v
      = Ret (b, match order with
                | [] => snd v
                | _ :: _ => Some (sortBy detailName (pushed b))
                end)
      /\ urls b = urls (fst v)
      /\ pushed b = pushed (fst v) ++ pushes (urls (fst v)) order.
Proof.
induction order as [|n rest IH]; intros v Hok Hlen; simpl.
- exists (fst v). rewrite app_nil_r. destruct v. repeat split.
- destruct (Hok n (or_introl eq_refl)) as (url & d & Hnth & Hfetch).
  pose (b1 := pushDetail (fst v) d).
  pose (v1 := (b1, if allDone b1 then Some (sortBy detailName (pushed b1)) else snd v)).
  assert (Hstep : finish n v = Ret v1)
    by (unfold batchComplete; rewrite Hnth, Hfetch; reflexivity).
  rewrite Hstep. simpl bind.
  destruct (IH v1) as (b & Hrun & Hurls & Hpushed).
  + intros m Hm. apply Hok. now right.
  + simpl in *. lia.
  + exists b. rewrite Hrun. simpl in Hurls, Hpushed.
    repeat split; trivial.
    * destruct rest as [|m rest']; [|reflexivity].
      simpl in Hrun. injection Hrun as Hb. subst b. unfold v1. simpl.
      unfold allDone. simpl.
      destruct (Nat.leb_spec (List.length (urls (fst v))) (S (completed (fst v))));
        [reflexivity | simpl in Hlen; lia].
    * rewrite Hpushed. unfold pushedBy, delivered. simpl.
      rewrite Hnth, Hfetch. simpl. now rewrite <- app_assoc.
Qed.

End BatchFacts.

(* ===================================================================== *)
(** ** The fan-out, batch by batch *)
(* ===================================================================== *)

Section FanoutFacts.

Context {Detail Elevator : Type}.
Variable env_BART_API_KEY : option string.
Variable httpRequest : requestOptions -> reply.
Variables parseAccess parseInfo : string -> parsed Detail.
Variable detailName : Detail -> string.

Local Abbreviation fanoutState := (@fanout Detail Elevator).
Local Abbreviation fetch := (fetchDetail env_BART_API_KEY httpRequest).
Local Abbreviation step :=
  (complete (Elevator := Elevator) env_BART_API_KEY httpRequest parseAccess parseInfo detailName).
Local Abbreviation runEvents :=
  (runFanout (Elevator := Elevator) env_BART_API_KEY httpRequest parseAccess parseInfo detailName).
Local Abbreviation finish := (batchComplete env_BART_API_KEY httpRequest detailName).
Local Abbreviation runBatch := (batchRun env_BART_API_KEY httpRequest detailName).
Local Abbreviation entries := (delivered env_BART_API_KEY httpRequest).
Local Abbreviation pushes := (pushedBy env_BART_API_KEY httpRequest).

Lemma complete_AccessDone (n : nat) (f : fanoutState) :
  match finish parseAccess n (accessView f) with
  | Ret v => exists f', step (AccessDone n) f = Ret f'
                        /\ accessView f' = v /\ infoView f' = infoView f
                        /\ sameOtherSlots f f'
  | Throw e => step (AccessDone n) f = Throw e
  end.
Proof.
unfold batchComplete, complete, accessView. simpl.
destruct (nth_error (urls (access f)) n) as [url|].
- destruct (fetch parseAccess url) as [d|e]; simpl; [|reflexivity].
  eexists. split; [reflexivity|].
  unfold accessFinal, infoView, accessView, sameOtherSlots. simpl.
  destruct (allDone (pushDetail (access f) d)); simpl; repeat split.
- exists f. repeat split.
Qed.

Lemma complete_InfoDone (n : nat) (f : fanoutState) :
  match finish parseInfo n (infoView f) with
  | Ret v => exists f', step (InfoDone n) f = Ret f'
                        /\ infoView f' = v /\ accessView f' = accessView f
                        /\ sameOtherSlots f f'
  | Throw e => step (InfoDone n) f = Throw e
  end.
Proof.
unfold batchComplete, complete, infoView. simpl.
destruct (nth_error (urls (info f)) n) as [url|].
- destruct (fetch parseInfo url) as [d|e]; simpl; [|reflexivity].
  eexists. split; [reflexivity|].
  unfold infoFinal, infoView, accessView, sameOtherSlots. simpl.
  destruct (allDone (pushDetail (info f) d)); simpl; repeat split.
- exists f. repeat split.
Qed.

(** A run that handles all its completions is, for each batch, the run of
    that batch on its own completions. *)
Lemma runFanout_views (events : list completion) :
  forall f f',
    runEvents events f = Finished f' ->
    runBatch parseAccess (accessOrder events) (accessView f) = Ret (accessView f')
    /\ runBatch parseInfo (infoOrder events) (infoView f) = Ret (infoView f')
    /\ sameOtherSlots f f'.
Proof.
induction events as [|ev rest IH]; intros f f' Hrun; simpl in Hrun.
- injection Hrun as <-. repeat split.
- destruct ev as [n|n].
  + pose proof (complete_AccessDone n f) as Hstep. simpl.
    destruct (finish parseAccess n (accessView f)) as [v|e].
    * destruct Hstep as (f1 & Hs & Hv & Hi & Hl & He). rewrite Hs in Hrun.
      destruct (IH f1 f' Hrun) as (Ha & Hb & Hl' & He'). simpl.
      rewrite <- Hv, <- Hi. repeat split; trivial; congruence.
    * rewrite Hstep in Hrun. discriminate.
  + pose proof (complete_InfoDone n f) as Hstep. simpl.
    destruct (finish parseInfo n (infoView f)) as [v|e].
    * destruct Hstep as (f1 & Hs & Hv & Hi & Hl & He). rewrite Hs in Hrun.
      destruct (IH f1 f' Hrun) as (Ha & Hb & Hl' & He'). simpl.
      rewrite <- Hv, <- Hi. repeat split; trivial; congruence.
    * rewrite Hstep in Hrun. discriminate.
Qed.

(** When neither batch throws, the run handles all its completions. *)
Lemma runFanout_total (events : list completion) :
  forall f va vi,
    runBatch parseAccess (accessOrder events) (accessView f) = Ret va ->
    runBatch parseInfo (infoOrder events) (infoView f) = Ret vi ->
    exists f', runEvents events f = Finished f'.
Proof.
induction events as [|ev rest IH]; intros f va vi Ha Hi; simpl.
- now exists f.
- destruct ev as [n|n]; simpl in Ha, Hi.
  + pose proof (complete_AccessDone n f) as Hstep.
    destruct (finish parseAccess n (accessView f)) as [v|e]; [|discriminate].
    destruct Hstep as (f1 & Hs & Hv & Hi' & _). rewrite Hs.
    apply (IH f1 va vi); [now rewrite Hv | now rewrite Hi'].
  + pose proof (complete_InfoDone n f) as Hstep.
    destruct (finish parseInfo n (infoView f)) as [v|e]; [|discriminate].
    destruct Hstep as (f1 & Hs & Hv & Ha' & _). rewrite Hs.
    apply (IH f1 va vi); [now rewrite Ha' | now rewrite Hv].
Qed.

(** A run that ends on a throw has handled the completions before it. *)
Lemma runFanout_faulted (events : list completion) :
  forall f e f',
    runEvents events f = Faulted e f' ->
    exists pre post, events = pre ++ post /\ runEvents pre f = Finished f'.
Proof.
induction events as [|ev rest IH]; intros f e f' Hrun; simpl in Hrun.
- discriminate.
- destruct (step ev f) as [f1|e1] eqn:Hstep.
  + destruct (IH f1 e f' Hrun) as (pre & post & -> & Hpre).
    exists (ev :: pre), post. split; [reflexivity|]. simpl. now rewrite Hstep.
  + inversion Hrun; subst. exists [], (ev :: rest). now split.
Qed.

Lemma accessOrder_app (l l' : list completion) :
  accessOrder (l ++ l') = accessOrder l ++ accessOrder l'.
Proof.
induction l as [|[n|n] r IH]; simpl; trivial. now rewrite IH.
Qed.

Lemma infoOrder_app (l l' : list completion) :
  infoOrder (l ++ l') = infoOrder l ++ infoOrder l'.
Proof.
induction l as [|[n|n] r IH]; simpl; trivial. now rewrite IH.
Qed.

Lemma NoDup_app_l {A : Type} (l l' : list A) : NoDup (l ++ l') -> NoDup l.
Proof.
induction l as [|x r IH]; simpl; intros H.
- constructor.
- inversion H as [|? ? Hx Hr]; subst. constructor.
  + intros Hin. apply Hx, in_or_app. now left.
  + now apply IH.
Qed.

(** However a run ends, it has handled a duplicate-free part of the
    completions. *)
Lemma runFanout_handled (events : list completion) (f : fanoutState) :
  NoDup (accessOrder events) -> NoDup (infoOrder events) ->
  exists handled f',
    runEvents handled f = Finished f'
    /\ cached f' = finalCache (runEvents events f)
    /\ NoDup (accessOrder handled) /\ NoDup (infoOrder handled).
Proof.
intros Ha Hi. destruct (runEvents events f) as [f'|e f'] eqn:Hrun.
- exists events, f'. repeat split; trivial.
- destruct (runFanout_faulted events f e f' Hrun) as (pre & post & -> & Hpre).
  exists pre, f'. rewrite accessOrder_app in Ha. rewrite infoOrder_app in Hi.
  repeat split; trivial; eapply NoDup_app_l; eassumption.
Qed.

(** With a handler of uncaught exceptions, the loop ends as the plain loop
    does on the completions whose callbacks do not throw. *)
Lemma runFanoutCaught_handled (events : list completion) :
  forall f,
    NoDup (accessOrder events) -> NoDup (infoOrder events) ->
    exists handled,
      runEvents handled f
      = Finished (runFanoutCaught env_BART_API_KEY httpRequest parseAccess parseInfo
                    detailName events f)
      /\ incl (accessOrder handled) (accessOrder events)
      /\ incl (infoOrder handled) (infoOrder events)
      /\ NoDup (accessOrder handled) /\ NoDup (infoOrder handled).
Proof.
induction events as [|ev rest IH]; intros f Ha Hi.
- exists []. simpl. repeat split; trivial; apply incl_refl.
- assert (Ha' : NoDup (accessOrder rest))
    by (destruct ev; simpl in Ha; [now inversion Ha | exact Ha]).
  assert (Hi' : NoDup (infoOrder rest))
    by (destruct ev; simpl in Hi; [exact Hi | now inversion Hi]).
  cbn [runFanoutCaught]. destruct (step ev f) as [f1|e] eqn:Hstep.
  + destruct (IH f1 Ha' Hi') as (handled & Hrun & Hia & Hii & Hna & Hni).
    exists (ev :: handled). cbn [runFanout]. rewrite Hstep.
    split; [exact Hrun|].
    destruct ev as [n|n]; simpl; repeat split; trivial.
    * intros x [<-|Hx]; [now left | right; now apply Hia].
    * constructor; trivial. inversion Ha; subst. intros Hn. now apply Hia in Hn.
    * intros x [<-|Hx]; [now left | right; now apply Hii].
    * constructor; trivial. inversion Hi; subst. intros Hn. now apply Hii in Hn.
  + destruct (IH f Ha' Hi') as (handled & Hrun & Hia & Hii & Hna & Hni).
    exists handled. split; [exact Hrun|].
    destruct ev as [n|n]; simpl; repeat split; trivial;
      intros x Hx; try (right; now apply Hia); try (right; now apply Hii);
      try (now apply Hia); now apply Hii.
Qed.

(** The completions of all the requests, in any order, push what the
    requests deliver. *)
Lemma pushedBy_seq (parser : string -> parsed Detail) (l : list string) :
  pushes parser l (seq 0 (List.length l)) = entries parser l.
Proof.
unfold pushedBy.
assert (H : forall pre,
           flat_map (fun n => match nth_error (pre ++ l) n with
                              | Some url => entries parser [url]
                              | None => []
                              end) (seq (List.length pre) (List.length l))
           = entries parser l).
{ induction l as [|x r IH]; intros pre; simpl.
  - reflexivity.
  - rewrite nth_error_app2 by lia. rewrite Nat.sub_diag. simpl.
    specialize (IH (pre ++ [x])).
    rewrite length_app, Nat.add_1_r, <- app_assoc in IH. simpl in IH.
    rewrite IH. unfold delivered. simpl. now rewrite app_nil_r. }
exact (H []).
Qed.

Lemma pushedBy_perm (parser : string -> parsed Detail) (l : list string)
    (order : list nat) :
  Permutation order (seq 0 (List.length l)) ->
  Permutation (entries parser l) (pushes parser l order).
Proof.
intros H. rewrite <- pushedBy_seq. unfold pushedBy.
apply Permutation_sym, Permutation_flat_map, H.
Qed.

(** When every request delivers, there is one entry for each station. *)
Lemma delivered_one_each (parser : string -> parsed Detail)
    (url : Station -> string) (stations : list Station) :
  (forall s, In s stations -> exists d, fetch parser (url s) = Ret d) ->
  Forall2 (fun s d => fetch parser (url s) = Ret d)
    stations (entries parser (map url stations)).
Proof.
induction stations as [|s r IH]; intros H; unfold delivered; simpl.
- constructor.
- destruct (H s (or_introl eq_refl)) as [d Hd]. rewrite Hd. simpl.
  constructor; [exact Hd|]. apply IH. intros t Ht. apply H. now right.
Qed.

End FanoutFacts.

Section FanoutClaims.

Context {Detail Elevator : Type}.
Variable env_BART_API_KEY : option string.
Variable httpRequest : requestOptions -> reply.
Variables parseAccess parseInfo : string -> parsed Detail.
Variable detailName : Detail -> string.

Local Abbreviation fetch := (fetchDetail env_BART_API_KEY httpRequest).
Local Abbreviation dispatch :=
  (getStationInfoAndAccess (Detail := Detail) (Elevator := Elevator) detailName).
Local Abbreviation runEvents :=
  (runFanout (Elevator := Elevator) env_BART_API_KEY httpRequest parseAccess parseInfo detailName).
Local Abbreviation runBatch := (batchRun env_BART_API_KEY httpRequest detailName).
Local Abbreviation entries := (delivered env_BART_API_KEY httpRequest).
Local Abbreviation pushes := (pushedBy env_BART_API_KEY httpRequest).

(** The state in which [getStationInfoAndAccess] leaves a non-empty
    station list: nothing pushed, nothing completed, no slot written. *)
Lemma getStationInfoAndAccess_start (c : infoCache Detail Elevator) (sl : StationList) :
  getStationList c = Some sl ->
  elements (station sl) <> [] ->
  dispatch c
  = Ret {| cached := c;
           access := {| urls := map stationAccessURL (elements (station sl));
                        pushed := []; completed := 0 |};
           info := {| urls := map stationInfoURL (elements (station sl));
                      pushed := []; completed := 0 |} |}.
Proof.
intros Hc Hne. unfold getStationInfoAndAccess, cachedStations. rewrite Hc. simpl.
destruct (elements (station sl)) as [|s r]; [now elim Hne|]. reflexivity.
Qed.

(** The slot of a batch all of whose requests deliver, once they have all
    completed. *)
Lemma batch_aggregate (parser : string -> parsed Detail) (url : Station -> string)
    (stations : list Station) (order : list nat) (slot : option (list Detail)) :
  stations <> [] ->
  Permutation order (seq 0 (List.length stations)) ->
  (forall s, In s stations -> exists d, fetch parser (url s) = Ret d) ->
  exists b aggregate perStation,
    runBatch parser order
      ({| urls := map url stations; pushed := []; completed := 0 |}, slot)
    = Ret (b, Some aggregate)
    /\ Forall2 (fun s d => fetch parser (url s) = Ret d) stations perStation
    /\ Permutation perStation aggregate
    /\ StronglySorted (ascending detailName) aggregate.
Proof.
intros Hne Hperm Hok.
set (v := ({| urls := map url stations; pushed := []; completed := 0 |}, slot)).
destruct (batchRun_all_done env_BART_API_KEY httpRequest detailName parser order v)
  as (b & Hrun & _ & Hpushed).
- intros n Hn. apply (Permutation_in _ Hperm), in_seq in Hn. simpl.
  destruct (nth_error stations n) as [s|] eqn:Hs.
  + destruct (Hok s (nth_error_In _ _ Hs)) as [d Hd].
    exists (url s), d. split; [|exact Hd]. now apply map_nth_error.
  + apply nth_error_None in Hs. lia.
- simpl. rewrite (Permutation_length Hperm), length_seq, length_map. reflexivity.
- simpl in Hpushed.
  assert (Hord : order <> []).
  { intros ->. apply Permutation_length in Hperm. rewrite length_seq in Hperm.
    destruct stations; [now elim Hne | discriminate]. }
  destruct order as [|n rest]; [now elim Hord|].
  exists b, (sortBy detailName (pushed b)), (entries parser (map url stations)).
  split; [exact Hrun|]. split; [now apply delivered_one_each|]. split.
  + rewrite Hpushed.
    apply perm_trans with (pushes parser (map url stations) (n :: rest)).
    * apply pushedBy_perm. now rewrite length_map.
    * apply sortBy_perm.
  + apply sortBy_strongly_sorted.
Qed.

(** X21: when the requests of both batches all deliver and have all
    completed, in whatever order, the station access slot and the station
    info slot each hold one entry for each element of the cached station
    array, the one its request delivered, and each is in ascending order of
    the names.  (A list cached as a bare station has no element: no request
    is made for it.) *)
Theorem X21_fanout_aggregates_complete_and_sorted
    (c : infoCache Detail Elevator) (sl : StationList) (events : list completion) :
  getStationList c = Some sl ->
  Permutation (accessOrder events) (seq 0 (List.length (elements (station sl)))) ->
  Permutation (infoOrder events) (seq 0 (List.length (elements (station sl)))) ->
  (forall s, In s (elements (station sl)) ->
     exists d, fetch parseAccess (stationAccessURL s) = Ret d) ->
  (forall s, In s (elements (station sl)) ->
     exists d, fetch parseInfo (stationInfoURL s) = Ret d) ->
  exists f0 f accessEntries infoEntries accessAggregate infoAggregate,
    dispatch c = Ret f0
    /\ runEvents events f0 = Finished f
    /\ Forall2 (fun s d => fetch parseAccess (stationAccessURL s) = Ret d)
         (elements (station sl)) accessEntries
    /\ getStationAccess (cached f) = Some accessAggregate
    /\ Permutation accessEntries accessAggregate
    /\ StronglySorted (ascending detailName) accessAggregate
    /\ Forall2 (fun s d => fetch parseInfo (stationInfoURL s) = Ret d)
         (elements (station sl)) infoEntries
    /\ getStationInfo (cached f) = Some infoAggregate
    /\ Permutation infoEntries infoAggregate
    /\ StronglySorted (ascending detailName) infoAggregate.
Proof.
intros Hc Hpa Hpi Hoka Hoki.
destruct (elements (station sl)) as [|s0 r] eqn:Hst.
- (* no station: both final callbacks run at once *)
  assert (Hev : events = []).
  { apply Permutation_sym, Permutation_nil in Hpa.
    apply Permutation_sym, Permutation_nil in Hpi.
    destruct events as [|[n|n] rest]; trivial; discriminate. }
  subst events.
  unfold getStationInfoAndAccess, cachedStations. rewrite Hc. simpl. rewrite Hst. simpl.
  eexists _, _, [], [], [], []. split; [reflexivity|]. split; [reflexivity|].
  unfold infoFinal, accessFinal. simpl.
  repeat split; constructor.
- rewrite <- Hst in *.
  assert (Hne : elements (station sl) <> []) by (rewrite Hst; discriminate).
  rewrite (getStationInfoAndAccess_start c sl Hc Hne).
  set (f0 := {| cached := c;
                access := {| urls := map stationAccessURL (elements (station sl));
                             pushed := []; completed := 0 |};
                info := {| urls := map stationInfoURL (elements (station sl));
                           pushed := []; completed := 0 |} |}).
  destruct (batch_aggregate parseAccess stationAccessURL (elements (station sl))
              (accessOrder events) (stationAccess c) Hne Hpa Hoka)
    as (ba & A & ea & Hra & Hfa & Hpea & Hsa).
  destruct (batch_aggregate parseInfo stationInfoURL (elements (station sl))
              (infoOrder events) (stationInfo c) Hne Hpi Hoki)
    as (bi & I & ei & Hri & Hfi & Hpei & Hsi).
  destruct (runFanout_total env_BART_API_KEY httpRequest parseAccess parseInfo detailName
              events f0 _ _ Hra Hri) as [f Hrun].
  destruct (runFanout_views env_BART_API_KEY httpRequest parseAccess parseInfo detailName
              events f0 f Hrun) as (Hva & Hvi & _).
  unfold accessView in Hva. unfold infoView in Hvi. unfold f0 in Hva, Hvi.
  cbn [access info cached] in Hva, Hvi.
  rewrite Hra in Hva. rewrite Hri in Hvi.
  injection Hva as _ Hsa'. injection Hvi as _ Hsi'.
  exists f0, f, ea, ei, A, I. unfold getStationAccess, getStationInfo.
  repeat split; trivial; congruence.
Qed.

(** A fan-out that has made no request handles no completion. *)
Lemma runFanout_no_request (events : list completion) (f : @fanout Detail Elevator) :
  urls (access f) = [] -> urls (info f) = [] -> runEvents events f = Finished f.
Proof.
intros Ha Hi. induction events as [|[n|n] rest IH]; simpl; trivial.
- rewrite Ha. destruct n; simpl; exact IH.
- rewrite Hi. destruct n; simpl; exact IH.
Qed.

(** C3: the code breaks the claim on a station list with one station.  The
    slot then holds the bare station, which has no [length]: the loop that
    builds the URLs is not entered, no request is made, both final
    callbacks run at once, and the station access slot and the station info
    slot hold the empty array, with no entry for the station, whatever
    completes afterwards. *)
Theorem C3_lone_station_gets_no_entry
    (c : infoCache Detail Elevator) (sl : StationList) (s : Station)
    (events : list completion) :
  getStationList c = Some sl ->
  station sl = Single s ->
  exists f0,
    dispatch c = Ret f0
    /\ urls (access f0) = []
    /\ urls (info f0) = []
    /\ getStationAccess (finalCache (runEvents events f0)) = Some []
    /\ getStationInfo (finalCache (runEvents events f0)) = Some [].
Proof.
intros Hc Hs. unfold getStationInfoAndAccess, cachedStations. rewrite Hc. simpl.
rewrite Hs. simpl. eexists. split; [reflexivity|].
unfold infoFinal, accessFinal. simpl. split; [reflexivity|]. split; [reflexivity|].
rewrite runFanout_no_request by reflexivity. split; reflexivity.
Qed.

(** The slot of a batch one of whose requests fails, after a run that has
    handled [handled]. *)
Lemma failing_batch_slots (c : infoCache Detail Elevator) (sl : StationList)
    (handled : list completion) (f : @fanout Detail Elevator) (s : Station) :
  In s (elements (station sl)) ->
  NoDup (accessOrder handled) ->
  NoDup (infoOrder handled) ->
  runEvents handled
    {| cached := c;
       access := {| urls := map stationAccessURL (elements (station sl));
                    pushed := []; completed := 0 |};
       info := {| urls := map stationInfoURL (elements (station sl));
                  pushed := []; completed := 0 |} |}
  = Finished f ->
  ((exists e, fetch parseAccess (stationAccessURL s) = Throw e) ->
   stationAccess (cached f) = stationAccess c)
  /\ ((exists e, fetch parseInfo (stationInfoURL s) = Throw e) ->
      stationInfo (cached f) = stationInfo c).
Proof.
intros Hin Hnda Hndi Hrun.
set (f0 := {| cached := c; access := _; info := _ |}) in Hrun.
destruct (runFanout_views env_BART_API_KEY httpRequest parseAccess parseInfo detailName
            handled f0 f Hrun) as (Hva & Hvi & _).
destruct (In_nth_error _ _ Hin) as [i Hi].
split; intros [e He].
- change (stationAccess (cached f)) with (snd (accessView f)).
  change (stationAccess c) with (snd (accessView f0)).
  apply (batchRun_failing_keeps_slot env_BART_API_KEY httpRequest detailName parseAccess
           (accessOrder handled) (accessView f0) (accessView f) i (stationAccessURL s) e);
    trivial.
  simpl. now apply map_nth_error.
- change (stationInfo (cached f)) with (snd (infoView f)).
  change (stationInfo c) with (snd (infoView f0)).
  apply (batchRun_failing_keeps_slot env_BART_API_KEY httpRequest detailName parseInfo
           (infoOrder handled) (infoView f0) (infoView f) i (stationInfoURL s) e);
    trivial.
  simpl. now apply map_nth_error.
Qed.

(** C4: when the request of some station fails in a batch (its callback
    throws), the slot of that batch still holds the value it had when the
    fan-out started: when the event loop stops at the first callback that
    throws, wherever that is, and also when the host process handles the
    exception and the loop goes on. *)
Theorem C4_failed_fetch_keeps_snapshot
    (c : infoCache Detail Elevator) (sl : StationList) (events : list completion)
    (s : Station) :
  getStationList c = Some sl ->
  In s (elements (station sl)) ->
  NoDup (accessOrder events) ->
  NoDup (infoOrder events) ->
  exists f0,
    dispatch c = Ret f0
    /\ ((exists e, fetch parseAccess (stationAccessURL s) = Throw e) ->
        getStationAccess (finalCache (runEvents events f0)) = getStationAccess c
        /\ getStationAccess
             (cached (runFanoutCaught env_BART_API_KEY httpRequest parseAccess parseInfo
                        detailName events f0))
           = getStationAccess c)
    /\ ((exists e, fetch parseInfo (stationInfoURL s) = Throw e) ->
        getStationInfo (finalCache (runEvents events f0)) = getStationInfo c
        /\ getStationInfo
             (cached (runFanoutCaught env_BART_API_KEY httpRequest parseAccess parseInfo
                        detailName events f0))
           = getStationInfo c).
Proof.
intros Hc Hin Hnda Hndi.
assert (Hne : elements (station sl) <> []) by (intros E; rewrite E in Hin; destruct Hin).
rewrite (getStationInfoAndAccess_start c sl Hc Hne).
eexists. split; [reflexivity|].
set (f0 := {| cached := c; access := _; info := _ |}).
destruct (runFanout_handled env_BART_API_KEY httpRequest parseAccess parseInfo detailName
            events f0 Hnda Hndi) as (h1 & f1 & Hrun1 & Hcache1 & Hnda1 & Hndi1).
destruct (runFanoutCaught_handled env_BART_API_KEY httpRequest parseAccess parseInfo
            detailName events f0 Hnda Hndi) as (h2 & Hrun2 & _ & _ & Hnda2 & Hndi2).
destruct (failing_batch_slots c sl h1 f1 s Hin Hnda1 Hndi1 Hrun1) as [Ha1 Hi1].
destruct (failing_batch_slots c sl h2 _ s Hin Hnda2 Hndi2 Hrun2) as [Ha2 Hi2].
unfold getStationAccess, getStationInfo. rewrite <- Hcache1.
split; intros He; split; auto.
Qed.

End FanoutClaims.

(** The fan-out of [refreshedCache] on an upstream that answers: both
    slots end on the two stations, 12th Street first. *)
Example fanout_run_on_echoUpstream :
  exists f0,
    getStationInfoAndAccess name refreshedCache = Ret f0
    /\ finalCache (runFanout None echoUpstream echoParser echoParser name someOrder f0)
       = {| stationList := Some {| station := Many [nineteenthStreet; twelfthStreet] |};
            stationInfo := Some [twelfthStreet; nineteenthStreet];
            stationAccess := Some [twelfthStreet; nineteenthStreet];
            elevatorStatus := None |}.
Proof.
eexists. split; reflexivity.
Qed.

(** The same fan-out when the requests about 19th Street fail: the callback
    of the first of them to complete throws, and both slots are as they
    were. *)
Example fanout_run_on_flakyUpstream :
  exists f0 f,
    getStationInfoAndAccess name refreshedCache = Ret f0
    /\ runFanout None flakyUpstream echoParser echoParser name someOrder f0
       = Faulted TypeError f
    /\ cached f = refreshedCache
    /\ cached (runFanoutCaught None flakyUpstream echoParser echoParser name someOrder f0)
       = refreshedCache.
Proof.
eexists _, _. repeat split; reflexivity.
Qed.

Lemma X21_fanout_aggregates_complete_and_sorted_witness :
  exists f0 f accessEntries infoEntries accessAggregate infoAggregate,
    getStationInfoAndAccess name refreshedCache = Ret f0
    /\ runFanout None echoUpstream echoParser echoParser name someOrder f0 = Finished f
    /\ Forall2 (fun s d => fetchDetail None echoUpstream echoParser (stationAccessURL s) = Ret d)
         [nineteenthStreet; twelfthStreet] accessEntries
    /\ getStationAccess (cached f) = Some accessAggregate
    /\ Permutation accessEntries accessAggregate
    /\ StronglySorted (ascending name) accessAggregate
    /\ Forall2 (fun s d => fetchDetail None echoUpstream echoParser (stationInfoURL s) = Ret d)
         [nineteenthStreet; twelfthStreet] infoEntries
    /\ getStationInfo (cached f) = Some infoAggregate
    /\ Permutation infoEntries infoAggregate
    /\ StronglySorted (ascending name) infoAggregate.
Proof.
apply (X21_fanout_aggregates_complete_and_sorted None echoUpstream echoParser echoParser name
         refreshedCache {| station := Many [nineteenthStreet; twelfthStreet] |} someOrder eq_refl).
- apply perm_swap.
- apply perm_swap.
- intros s [<-|[<-|[]]]; eexists; reflexivity.
- intros s [<-|[<-|[]]]; eexists; reflexivity.
Defined.

Lemma C3_lone_station_gets_no_entry_witness :
  exists f0,
    getStationInfoAndAccess name loneStationCache = Ret f0
    /\ urls (access f0) = []
    /\ urls (info f0) = []
    /\ getStationAccess
         (finalCache (runFanout None echoUpstream echoParser echoParser name someOrder f0))
       = Some []
    /\ getStationInfo
         (finalCache (runFanout None echoUpstream echoParser echoParser name someOrder f0))
       = Some [].
Proof.
exact (C3_lone_station_gets_no_entry None echoUpstream echoParser echoParser name
         loneStationCache {| station := Single twelfthStreet |} twelfthStreet someOrder
         eq_refl eq_refl).
Defined.

Lemma C4_failed_fetch_keeps_snapshot_witness :
  exists f0,
    getStationInfoAndAccess name refreshedCache = Ret f0
    /\ getStationAccess
         (finalCache (runFanout None flakyUpstream echoParser echoParser name someOrder f0))
       = Some [twelfthStreet; cityCenter]
    /\ getStationInfo
         (cached (runFanoutCaught None flakyUpstream echoParser echoParser name
                    someOrder f0))
       = Some [twelfthStreet; cityCenter].
Proof.
destruct (C4_failed_fetch_keeps_snapshot None flakyUpstream echoParser echoParser name
            refreshedCache {| station := Many [nineteenthStreet; twelfthStreet] |} someOrder
            nineteenthStreet eq_refl (or_introl eq_refl))
  as (f0 & H0 & Ha & Hi).
- repeat constructor; simpl; intuition discriminate.
- repeat constructor; simpl; intuition discriminate.
- exists f0. split; [exact H0|]. split.
  + apply Ha. exists TypeError. reflexivity.
  + apply Hi. exists TypeError. reflexivity.
Defined.

(* ===================================================================== *)
(** ** Replacing in strings *)
(* ===================================================================== *)

Section Replacing.

Local Open Scope string_scope.

Lemma append_empty_r (s : string) : s ++ "" = s.
Proof.
induction s as [|c r IH]; simpl; [reflexivity | now rewrite IH].
Qed.

Lemma append_assoc (a b c : string) : (a ++ b) ++ c = a ++ b ++ c.
Proof.
induction a as [|x r IH]; simpl; [reflexivity | now rewrite IH].
Qed.

Lemma prefix_append (pat post : string) : String.prefix pat (pat ++ post) = true.
Proof.
induction pat as [|c r IH]; simpl.
- now destruct post.
- destruct (ascii_dec c c) as [_|H]; [exact IH | now elim H].
Qed.

Lemma drop_append (pat post : string) : drop (String.length pat) (pat ++ post) = post.
Proof.
induction pat as [|c r IH]; simpl; [now destruct post | exact IH].
Qed.

Lemma occursAt_0 (pat s : string) : occursAt pat s 0 <-> String.prefix pat s = true.
Proof.
unfold occursAt. destruct s; simpl; tauto.
Qed.

Lemma occursAt_S (pat : string) (c : ascii) (s : string) (i : nat) :
  occursAt pat (String c s) (S i) <-> occursAt pat s i.
Proof.
unfold occursAt. simpl. tauto.
Qed.

Lemma firstOccurrence_head (pat pre post s : string) (c : ascii) :
  firstOccurrence pat (String c pre) post s ->
  String.prefix pat s = false
  /\ exists r, s = String c r /\ firstOccurrence pat pre post r.
Proof.
intros [-> Hfirst]. split.
- destruct (String.prefix pat (String c pre ++ pat ++ post)) eqn:H; trivial.
  elim (Hfirst 0%nat); [simpl; lia | now apply occursAt_0].
- exists (pre ++ pat ++ post). split; [reflexivity|]. split; [reflexivity|].
  intros i Hi Hocc. apply (Hfirst (S i)); [simpl; lia|].
  now apply occursAt_S.
Qed.

Lemma noOccurrence_head (pat : string) (c : ascii) (r : string) :
  noOccurrence pat (String c r) ->
  String.prefix pat (String c r) = false /\ noOccurrence pat r.
Proof.
intros H. split.
- destruct (String.prefix pat (String c r)) eqn:E; trivial.
  elim (H 0%nat). now apply occursAt_0.
- intros i Hi. apply (H (S i)). now apply occursAt_S.
Qed.

(** [replace] rewrites the first occurrence and nothing else. *)
Lemma replace_first (pat rep pre post s : string) :
  firstOccurrence pat pre post s -> replace pat rep s = pre ++ rep ++ post.
Proof.
revert s. induction pre as [|c pre IH]; intros s H.
- destruct H as [-> _].
  pose proof (prefix_append pat post) as Hp.
  pose proof (drop_append pat post) as Hd.
  destruct pat as [|a pat'].
  + destruct post; simpl; [now rewrite append_empty_r | reflexivity].
  + simpl append in *. cbn [replace]. rewrite Hp, Hd. reflexivity.
- destruct (firstOccurrence_head _ _ _ _ _ H) as (Hp & r & -> & Hr).
  cbn [replace]. rewrite Hp. simpl. now rewrite (IH r Hr).
Qed.

Lemma replace_none (pat rep s : string) :
  noOccurrence pat s -> replace pat rep s = s.
Proof.
induction s as [|c r IH]; intros H; cbn [replace].
- destruct (String.prefix pat "") eqn:E; trivial.
  elim (H 0%nat). now apply occursAt_0.
- destruct (noOccurrence_head _ _ _ H) as [Hp Hr]. rewrite Hp. now rewrite (IH Hr).
Qed.

Lemma splitFrom_skip (sep x y cur : string) :
  splitFrom sep (String.length x) cur (x ++ y) = splitFrom sep 0 cur y.
Proof.
induction x as [|c r IH]; simpl; [reflexivity | exact IH].
Qed.

Lemma splitFrom_nonempty (sep s : string) :
  forall k cur, splitFrom sep k cur s <> [].
Proof.
induction s as [|c r IH]; intros k cur; cbn [splitFrom].
- discriminate.
- destruct k; [|apply IH].
  destruct (String.prefix sep (String c r)); [discriminate | apply IH].
Qed.

Lemma join_cons (rep p : string) (l : list string) :
  l <> [] -> join rep (p :: l) = p ++ rep ++ join rep l.
Proof.
destruct l; [now intros H; elim H | reflexivity].
Qed.

Lemma join_splitFrom (sep rep s : string) :
  forall k cur,
    join rep (splitFrom sep k cur s) = cur ++ join rep (splitFrom sep k "" s).
Proof.
induction s as [|c r IH]; intros k cur; cbn [splitFrom].
- simpl. now rewrite append_empty_r.
- destruct k as [|k]; [|apply IH].
  destruct (String.prefix sep (String c r)).
  + rewrite !join_cons by apply splitFrom_nonempty. reflexivity.
  + rewrite IH. rewrite (IH 0%nat ("" ++ String c "")). simpl. now rewrite append_assoc.
Qed.

(** [split] and [join] rewrite every occurrence, from left to right. *)
Lemma split_join_first (pat rep pre post s : string) :
  pat <> "" ->
  firstOccurrence pat pre post s ->
  join rep (split pat s) = pre ++ rep ++ join rep (split pat post).
Proof.
intros Hpat. unfold split. revert s.
induction pre as [|c pre IH]; intros s H.
- destruct H as [-> _].
  destruct pat as [|c pat']; [now elim Hpat|].
  pose proof (prefix_append (String c pat') post) as Hp.
  cbn [append] in *. cbn [splitFrom]. rewrite Hp.
  rewrite join_cons by apply splitFrom_nonempty.
  cbn [String.length]. rewrite Nat.sub_succ, Nat.sub_0_r, splitFrom_skip. reflexivity.
- destruct (firstOccurrence_head _ _ _ _ _ H) as (Hp & r & -> & Hr).
  cbn [splitFrom]. rewrite Hp. rewrite join_splitFrom. cbn [append].
  now rewrite (IH r Hr).
Qed.

Lemma split_join_none (pat rep s : string) :
  noOccurrence pat s -> join rep (split pat s) = s.
Proof.
unfold split. induction s as [|c r IH]; intros H.
- reflexivity.
- destruct (noOccurrence_head _ _ _ H) as [Hp Hr].
  cbn [splitFrom]. rewrite Hp. rewrite join_splitFrom. cbn [append].
  now rewrite (IH Hr).
Qed.

End Replacing.

Example replace_is_first_only :
  replace rawColiseum coliseum
    "<name>Coliseum/Oakland Airport</name><city>Coliseum/Oakland Airport</city>"
  = "<name>Coliseum</name><city>Coliseum/Oakland Airport</city>"%string.
Proof. reflexivity. Qed.

Example split_join_is_all :
  join coliseum (split rawColiseum
    "<name>Coliseum/Oakland Airport</name><city>Coliseum/Oakland Airport</city>")
  = "<name>Coliseum</name><city>Coliseum</city>"%string.
Proof. reflexivity. Qed.

(* ===================================================================== *)
(** ** The name correction *)
(* ===================================================================== *)

(** C5 fails on the code: the refresh of the elevator status corrects no
    name.  The advisory is cached as the upstream wrote it, with
    ["Coliseum/Oakland Airport"] in it. *)
Lemma C5_counterexample :
  exists c,
    loadElevatorStatus (Detail := unit) None advisoryUpstream keepRoot emptyCache = Ret c
    /\ getElevatorStatus c = Some elevatorAdvisory
    /\ indexOf elevatorAdvisory rawColiseum = 51%Z
    /\ join coliseum (split rawColiseum elevatorAdvisory) <> elevatorAdvisory.
Proof.
eexists. split; [reflexivity|]. split; [reflexivity|]. split; [reflexivity|].
vm_compute. discriminate.
Qed.

(** C5, amended: the refresh of the station list replaces the first
    occurrence of ["Coliseum/Oakland Airport"] in the payload by
    ["Coliseum"] before it is parsed into the station list slot; a station
    info or station access request whose URL contains ["COLS"] replaces
    every occurrence in its payload before it is parsed, and a request
    whose URL does not parses the payload as it is; the refresh of the
    elevator status parses the payload as it is. *)
Theorem C5_name_correction_by_slot {Detail Elevator : Type}
    (env_BART_API_KEY : option string) (httpRequest : requestOptions -> reply)
    (parseStations : string -> parsed (option StationList))
    (parseDetail : string -> parsed Detail)
    (parseElevator : string -> parsed (option Elevator))
    (c : infoCache Detail Elevator) :
  (forall body pre post,
     httpRequest (buildHttpRequestOptions env_BART_API_KEY "stn.aspx?cmd=stns") = Body body ->
     firstOccurrence rawColiseum pre post body ->
     storeStationList env_BART_API_KEY httpRequest parseStations c
     = (stations <- rootOf (parseStations (pre ++ coliseum ++ post)%string) ;;
        Ret (updateStationList c stations)))
  /\ (forall url body pre post,
        httpRequest (buildHttpRequestOptions env_BART_API_KEY url) = Body body ->
        (indexOf url "COLS" > -1)%Z ->
        firstOccurrence rawColiseum pre post body ->
        fetchDetail env_BART_API_KEY httpRequest parseDetail url
        = rootOf (parseDetail
                    (pre ++ coliseum ++ join coliseum (split rawColiseum post))%string))
  /\ (forall url body,
        httpRequest (buildHttpRequestOptions env_BART_API_KEY url) = Body body ->
        (indexOf url "COLS" > -1)%Z ->
        noOccurrence rawColiseum body ->
        fetchDetail env_BART_API_KEY httpRequest parseDetail url = rootOf (parseDetail body))
  /\ (forall url body,
        httpRequest (buildHttpRequestOptions env_BART_API_KEY url) = Body body ->
        (indexOf url "COLS" <= -1)%Z ->
        fetchDetail env_BART_API_KEY httpRequest parseDetail url = rootOf (parseDetail body))
  /\ (forall body,
        httpRequest (buildHttpRequestOptions env_BART_API_KEY "bsa.aspx?cmd=elev") = Body body ->
        loadElevatorStatus env_BART_API_KEY httpRequest parseElevator c
        = (root <- rootOf (parseElevator body) ;; Ret (updateElevatorStatus c root))).
Proof.
repeat split.
- intros body pre post Hreq Hfirst.
  unfold storeStationList. rewrite Hreq. simpl.
  now rewrite (replace_first _ coliseum _ _ _ Hfirst).
- intros url body pre post Hreq Hcols Hfirst.
  unfold fetchDetail. rewrite Hreq.
  replace (indexOf url "COLS" >? -1)%Z with true by (symmetry; apply Z.gtb_lt; lia).
  simpl.
  rewrite (split_join_first rawColiseum coliseum pre post body); trivial.
  discriminate.
- intros url body Hreq Hcols Hnone.
  unfold fetchDetail. rewrite Hreq.
  replace (indexOf url "COLS" >? -1)%Z with true by (symmetry; apply Z.gtb_lt; lia).
  simpl. now rewrite (split_join_none rawColiseum coliseum body Hnone).
- intros url body Hreq Hcols.
  unfold fetchDetail. rewrite Hreq.
  replace (indexOf url "COLS" >? -1)%Z with false
    by (symmetry; rewrite Z.gtb_ltb; apply Z.ltb_ge; lia).
  reflexivity.
- intros body Hreq. unfold loadElevatorStatus. now rewrite Hreq.
Qed.

Lemma coliseumDocument_firstOccurrence :
  firstOccurrence rawColiseum "<name>" "</name>" coliseumDocument.
Proof.
split; [reflexivity|].
intros i Hi. unfold occursAt.
do 6 (destruct i as [|i]; [vm_compute; discriminate|]).
simpl in Hi. lia.
Qed.

Lemma C5_name_correction_by_slot_witness :
  storeStationList (Detail := string) (Elevator := string)
    None coliseumUpstream oneStation emptyCache
  = Ret (updateStationList emptyCache
           (Some {| station := Single {| name := "<name>Coliseum</name>"; abbr := "COLS";
                                         gtfs_latitude := "37.753661";
                                         gtfs_longitude := "-122.196869" |} |}))
  /\ fetchDetail None coliseumUpstream keepText "stn.aspx?cmd=stnaccess&orig=COLS"
     = Ret "<name>Coliseum</name>"%string
  /\ fetchDetail None coliseumUpstream keepText "stn.aspx?cmd=stnaccess&orig=12TH"
     = Ret coliseumDocument
  /\ loadElevatorStatus (Detail := string) None advisoryUpstream keepRoot emptyCache
     = Ret (updateElevatorStatus emptyCache (Some elevatorAdvisory)).
Proof.
destruct (C5_name_correction_by_slot (Detail := string) (Elevator := string)
            None coliseumUpstream oneStation keepText keepRoot emptyCache)
  as (Hlist & Hall & _ & Hother & _).
destruct (C5_name_correction_by_slot (Detail := string) (Elevator := string)
            None advisoryUpstream oneStation keepText keepRoot emptyCache)
  as (_ & _ & _ & _ & Helev).
split; [|split; [|split]].
- apply (Hlist coliseumDocument "<name>" "</name>" eq_refl
           coliseumDocument_firstOccurrence)%string.
- rewrite (Hall "stn.aspx?cmd=stnaccess&orig=COLS" coliseumDocument
             "<name>" "</name>" eq_refl)%string.
  + reflexivity.
  + vm_compute. reflexivity.
  + exact coliseumDocument_firstOccurrence.
- apply (Hother "stn.aspx?cmd=stnaccess&orig=12TH" coliseumDocument eq_refl)%string.
  vm_compute. discriminate.
- apply (Helev elevatorAdvisory eq_refl).
Defined.

(* ===================================================================== *)
(** ** Live queries *)
(* ===================================================================== *)

(** C6: when the announcements document parses and its [bsa] field is a
    bare element, [getServiceAnnouncements] calls back with a null error and
    a root whose [bsa] field is the array of that one element. *)
Theorem C6_single_announcement_is_wrapped {Announcement : Type}
    (env_BART_API_KEY : option string) (httpRequest : requestOptions -> reply)
    (parseBsa : string -> parsed (bsaRoot Announcement))
    (body : string) (root : bsaRoot Announcement) (a : Announcement) :
  httpRequest (buildHttpRequestOptions env_BART_API_KEY "bsa.aspx?cmd=bsa&date=today")
  = Body body ->
  parseBsa body = Result root ->
  bsa root = Single a ->
  getServiceAnnouncements env_BART_API_KEY httpRequest parseBsa
  = Callback None (Some {| bsa := Many [a] |}).
Proof.
intros Hreq Hparse Hbsa. unfold getServiceAnnouncements.
rewrite Hreq. simpl. rewrite Hparse, Hbsa. reflexivity.
Qed.

Lemma C6_single_announcement_is_wrapped_witness :
  getServiceAnnouncements None advisoryUpstream oneAnnouncement
  = Callback None (Some {| bsa := Many [elevatorAdvisory] |}).
Proof.
apply (C6_single_announcement_is_wrapped None advisoryUpstream oneAnnouncement
         elevatorAdvisory {| bsa := Single elevatorAdvisory |} elevatorAdvisory);
  reflexivity.
Defined.

(** An array of announcements is passed on as it is. *)
Lemma getServiceAnnouncements_array {Announcement : Type}
    (env_BART_API_KEY : option string) (httpRequest : requestOptions -> reply)
    (parseBsa : string -> parsed (bsaRoot Announcement))
    (body : string) (root : bsaRoot Announcement) (l : list Announcement) :
  httpRequest (buildHttpRequestOptions env_BART_API_KEY "bsa.aspx?cmd=bsa&date=today")
  = Body body ->
  parseBsa body = Result root ->
  bsa root = Many l ->
  getServiceAnnouncements env_BART_API_KEY httpRequest parseBsa
  = Callback None (Some root).
Proof.
intros Hreq Hparse Hbsa. unfold getServiceAnnouncements.
rewrite Hreq. simpl. rewrite Hparse, Hbsa. reflexivity.
Qed.

Section Dates.

Local Open Scope string_scope.

Lemma breakSpace_solid (d rest : string) :
  solid d = true ->
  LocalDate.breakSpace (d ++ String " " rest) = (d, String " " rest).
Proof.
induction d as [|c r IH]; intros H.
- reflexivity.
- simpl in H. apply andb_prop in H. destruct H as [Hc Hr].
  apply negb_true_iff in Hc.
  cbn [append LocalDate.breakSpace]. rewrite Hc, (IH Hr). reflexivity.
Qed.

(** The [Date] of a day and a time of day. *)
Lemma newDate_day_time (tz : Z) (d t : string) (day minutes : Z) :
  solid d = true ->
  LocalDate.calendarDay d = Some day ->
  LocalDate.timeOfDay t = Some minutes ->
  LocalDate.newDate tz (d ++ " " ++ t)
  = num (IZR ((day * 1440 + minutes - tz) * 60000)).
Proof.
intros Hsolid Hday Htime. unfold LocalDate.newDate.
cbn [append]. rewrite (breakSpace_solid d t Hsolid).
rewrite Hday, Htime. reflexivity.
Qed.

(** What the model of [Date] reads as a time of day; it does not read a
    time without a blank in front of [AM], with one digit for the minute, or
    with three for the hour. *)
Example timeOfDay_spellings :
  Forall (fun t => LocalDate.timeOfDay t = Some 480%Z) eightOClock
  /\ Forall (fun t => LocalDate.timeOfDay t = Some 515%Z) eightThirtyFive
  /\ Forall (fun t => LocalDate.timeOfDay t = None)
       ["8:00AM"; "8:0"; "008:00 am"].
Proof.
repeat split; repeat constructor.
Qed.

(** What it reads as a date. *)
Example calendarDay_spellings :
  LocalDate.calendarDay "11/02/2026" = Some 20759%Z
  /\ LocalDate.calendarDay "02/29/2028" = Some 21243%Z
  /\ LocalDate.calendarDay "13/01/2026" = None.
Proof.
repeat split; repeat constructor.
Qed.

End Dates.

Section Connection.

Context {Detail Elevator : Type}.
Variable env_BART_API_KEY : option string.
Variable httpRequest : requestOptions -> reply.
Variable parseSchedule : string -> parsed trip.

Lemma enrichLegs_cached (c : infoCache Detail Elevator) (sl : StationList) (ls : list leg) :
  getStationList c = Some sl ->
  exists ls', enrichLegs c ls = Ret ls'.
Proof.
intros Hc. induction ls as [|l r [r' IH]]; simpl.
- now exists [].
- unfold enrichLeg, getStationName, cachedStations. rewrite Hc. simpl.
  rewrite IH. simpl. eexists. reflexivity.
Qed.

(** With the station list cached, a schedule document that parses is
    answered, and the duration is the difference of the two dates, divided
    by 60000. *)
Lemma getConnectionData_duration (newDate : string -> number)
    (c : infoCache Detail Elevator) (sl : StationList) (cnxn : connection)
    (body : string) (t : trip) :
  getStationList c = Some sl ->
  httpRequest (buildHttpRequestOptions env_BART_API_KEY (scheduleUrl cnxn)) = Body body ->
  parseSchedule body = Result t ->
  exists t',
    getConnectionData env_BART_API_KEY httpRequest parseSchedule newDate c cnxn
    = Callback None (Some t')
    /\ duration (details t')
       = Some ((newDate (destTimeDate (details t) ++ " " ++ destTimeMin (details t))%string
                - newDate (trim (origTimeDate (details t)) ++ " "
                           ++ origTimeMin (details t))%string)
               / num 60000)%js.
Proof.
intros Hc Hreq Hparse. unfold getConnectionData. rewrite Hreq. simpl.
rewrite Hparse. simpl.
destruct (enrichLegs_cached c sl
            (match legs t with Single l => [l] | Many ls => ls end) Hc) as [ls' Hls].
rewrite Hls. simpl. eexists. split; reflexivity.
Qed.

End Connection.

(** C7: for every schedule document that [getConnectionData] parses, with
    the station list cached, the trip comes back with a duration that is the
    date of arrival minus the date of departure, in milliseconds, divided by
    60000; and when the two dates are the same day, written [MM/DD/YYYY],
    the departure is at 8:00 and the arrival at 8:35, written as the
    schedule documents write a time ([8:00 AM], or [08:00] on the 24-hour
    clock), the duration is 35. *)
Theorem C7_trip_duration_in_minutes {Detail Elevator : Type}
    (env_BART_API_KEY : option string) (httpRequest : requestOptions -> reply)
    (parseSchedule : string -> parsed trip)
    (c : infoCache Detail Elevator) (sl : StationList) (cnxn : connection)
    (body : string) (t : trip) :
  getStationList c = Some sl ->
  httpRequest (buildHttpRequestOptions env_BART_API_KEY (scheduleUrl cnxn)) = Body body ->
  parseSchedule body = Result t ->
  (forall newDate : string -> number,
     exists t',
       getConnectionData env_BART_API_KEY httpRequest parseSchedule newDate c cnxn
       = Callback None (Some t')
       /\ duration (details t')
          = Some ((newDate (destTimeDate (details t) ++ " " ++ destTimeMin (details t))%string
                   - newDate (trim (origTimeDate (details t)) ++ " "
                              ++ origTimeMin (details t))%string)
                  / num 60000)%js)
  /\ (forall (tz : Z) (d : string) (day : Z),
        solid d = true ->
        LocalDate.calendarDay d = Some day ->
        trim (origTimeDate (details t)) = d ->
        destTimeDate (details t) = d ->
        In (origTimeMin (details t)) eightOClock ->
        In (destTimeMin (details t)) eightThirtyFive ->
        exists t',
          getConnectionData env_BART_API_KEY httpRequest parseSchedule
            (LocalDate.newDate tz) c cnxn
          = Callback None (Some t')
          /\ duration (details t') = Some (num 35)).
Proof.
intros Hc Hreq Hparse. split.
- intros newDate.
  exact (getConnectionData_duration env_BART_API_KEY httpRequest parseSchedule
           newDate c sl cnxn body t Hc Hreq Hparse).
- intros tz d day Hsolid Hday Horig Hdest Hin1 Hin2.
  assert (Ht1 : LocalDate.timeOfDay (origTimeMin (details t)) = Some 480%Z)
    by (destruct timeOfDay_spellings as (H & _ & _);
        exact (proj1 (Forall_forall _ _) H _ Hin1)).
  assert (Ht2 : LocalDate.timeOfDay (destTimeMin (details t)) = Some 515%Z)
    by (destruct timeOfDay_spellings as (_ & H & _);
        exact (proj1 (Forall_forall _ _) H _ Hin2)).
  destruct (getConnectionData_duration env_BART_API_KEY httpRequest parseSchedule
              (LocalDate.newDate tz) c sl cnxn body t Hc Hreq Hparse) as (t' & Hcb & Hdur).
  exists t'. split; [exact Hcb|]. rewrite Hdur, Horig, Hdest.
  rewrite (newDate_day_time tz d _ day 480 Hsolid Hday Ht1).
  rewrite (newDate_day_time tz d _ day 515 Hsolid Hday Ht2).
  cbn [sub lift2 num].
  match goal with
  | |- context [div (Some ?x) (num 60000)] =>
      change (div (Some x) (num 60000)) with (div (num x) (num 60000))
  end.
  rewrite div_num by lra. unfold num. do 2 f_equal.
  rewrite !mult_IZR, !minus_IZR, !plus_IZR, !mult_IZR. simpl IZR. lra.
Qed.

Lemma C7_trip_duration_in_minutes_witness :
  exists t',
    getConnectionData (Detail := unit) (Elevator := unit)
      None echoUpstream morningParser (LocalDate.newDate (-480))
      (cacheOf [twelfthStreet; nineteenthStreet])
      {| start := "12th"; cnxnDestination := "19th" |}
    = Callback None (Some t')
    /\ duration (details t') = Some (num 35).
Proof.
apply (proj2 (C7_trip_duration_in_minutes (Detail := unit) (Elevator := unit)
                None echoUpstream morningParser
                (cacheOf [twelfthStreet; nineteenthStreet])
                {| station := Many [twelfthStreet; nineteenthStreet] |}
                {| start := "12th"; cnxnDestination := "19th" |}
                (uri (buildHttpRequestOptions None
                        (scheduleUrl {| start := "12th"; cnxnDestination := "19th" |})))
                morningTrip eq_refl eq_refl eq_refl)
         (-480)%Z "11/02/2026"%string 20759%Z);
  try reflexivity; simpl; tauto.
Defined.

(* ===================================================================== *)
(** ** Further properties: [getDistance] *)
(* ===================================================================== *)

Section DistanceFacts.

Local Open Scope R_scope.

Lemma getDistance_formula (latUser lonUser latStation lonStation : R) :
  getDistance (num latUser) (num lonUser) (num latStation) (num lonStation)
  = num (6371 * (2 * atan2R (sqrt (haversine latUser lonUser latStation lonStation))
                     (sqrt (1 - haversine latUser lonUser latStation lonStation)))
         * 0.621371).
Proof.
unfold getDistance, toRad, Math_PI.
change (Some PI) with (num PI).
rewrite (div_num PI 180) by lra.
cbn [sub mul lift2 num].
change (Some ?x) with (num x).
rewrite !(div_num _ 2) by lra.
cbn [Math_sin Math_cos lift1 mul add lift2 num].
change (Some ?x) with (num x).
fold (haversine latUser lonUser latStation lonStation).
assert (Ha : 0 <= haversine latUser lonUser latStation lonStation <= 1).
{ pose proof (haversine_term_bound (latUser * (PI / 180)) (latStation * (PI / 180))
                ((lonStation - lonUser) * (PI / 180) / 2)) as H.
  replace ((latStation * (PI / 180) - latUser * (PI / 180)) / 2)
    with ((latStation - latUser) * (PI / 180) / 2) in H by lra.
  exact H. }
rewrite sqrt_num by lra.
cbn [sub lift2 num]. change (Some ?x) with (num x).
rewrite sqrt_num by lra.
reflexivity.
Qed.

Lemma haversine_sym (a b c d : R) : haversine a b c d = haversine c d a b.
Proof.
unfold haversine.
replace ((a - c) * (PI / 180) / 2) with (- ((c - a) * (PI / 180) / 2)) by lra.
replace ((b - d) * (PI / 180) / 2) with (- ((d - b) * (PI / 180) / 2)) by lra.
rewrite !sin_neg. ring.
Qed.

Lemma getDistance_NaN (a b c d : number) :
  a = NaN \/ b = NaN \/ c = NaN \/ d = NaN -> getDistance a b c d = NaN.
Proof.
intros H. destruct (getDistance a b c d) as [r|] eqn:E; [|reflexivity].
assert (Hnum : numeric (getDistance a b c d)) by (rewrite E; discriminate).
destruct (getDistance_numeric _ _ _ _ Hnum) as (ra & rb & rc & rd & -> & -> & -> & ->).
destruct H as [H|[H|[H|H]]]; discriminate H.
Qed.

End DistanceFacts.

(** X1: the distance from the user to the station is the distance from the
    station to the user, for all arguments, numbers or not. *)
Theorem X1_getDistance_symmetric (latUser lonUser latStation lonStation : number) :
  getDistance latUser lonUser latStation lonStation
  = getDistance latStation lonStation latUser lonUser.
Proof.
destruct latUser as [a|]; [|rewrite !getDistance_NaN; auto].
destruct lonUser as [b|]; [|rewrite !getDistance_NaN; auto].
destruct latStation as [c|]; [|rewrite !getDistance_NaN; auto].
destruct lonStation as [d|]; [|rewrite !getDistance_NaN; auto 6].
change (Some ?x) with (num x).
rewrite !getDistance_formula, (haversine_sym a b c d). reflexivity.
Qed.

(** X2: [getDistance] is not a number as soon as one of its four arguments
    is not: a distance that is a number was computed from four numbers. *)
Theorem X2_getDistance_NaN_propagates
    (latUser lonUser latStation lonStation : number) :
  (latUser = NaN \/ lonUser = NaN \/ latStation = NaN \/ lonStation = NaN ->
   getDistance latUser lonUser latStation lonStation = NaN)
  /\ (numeric (getDistance latUser lonUser latStation lonStation) ->
      numeric latUser /\ numeric lonUser /\ numeric latStation /\ numeric lonStation).
Proof.
split.
- apply getDistance_NaN.
- intros H.
  destruct (getDistance_numeric _ _ _ _ H) as (a & b & c & d & -> & -> & -> & ->).
  repeat split; discriminate.
Qed.

Lemma X2_getDistance_NaN_propagates_witness :
  getDistance (parseFloat "37.803664") (parseFloat "west")
              (parseFloat "37.80787") (parseFloat "-122.269029") = NaN.
Proof.
apply (proj1 (X2_getDistance_NaN_propagates
                (parseFloat "37.803664") (parseFloat "west")
                (parseFloat "37.80787") (parseFloat "-122.269029"))).
right. left. reflexivity.
Defined.

(** X3: a point with finite coordinates is at distance 0 from itself. *)
Theorem X3_getDistance_to_itself (lat lon : number) :
  finite lat -> finite lon -> getDistance lat lon lat lon = num 0.
Proof.
intros [a ->] [b ->].
rewrite getDistance_formula.
assert (H : haversine a b a b = 0%R).
{ unfold haversine.
  replace ((a - a) * (PI / 180) / 2)%R with 0%R by lra.
  replace ((b - b) * (PI / 180) / 2)%R with 0%R by lra.
  rewrite sin_0. ring. }
rewrite H, sqrt_0. replace (1 - 0)%R with 1%R by lra.
rewrite sqrt_1, atan2R_0_1. unfold num. f_equal. lra.
Qed.

Lemma X3_getDistance_to_itself_witness :
  getDistance (parseFloat "37.803664") (parseFloat "-122.271604")
              (parseFloat "37.803664") (parseFloat "-122.271604") = num 0.
Proof.
apply (X3_getDistance_to_itself (parseFloat "37.803664") (parseFloat "-122.271604"));
  apply numeric_num; vm_compute; discriminate.
Defined.

(* ===================================================================== *)
(** ** Further properties: [stationByLocation] *)
(* ===================================================================== *)

Lemma ltb_between (x y z : number) :
  ltb x y = true -> ltb z y = false -> z = NaN \/ ltb x z = true.
Proof.
intros Hxy Hzy. destruct (ltb_true_inv _ _ Hxy) as (a & b & -> & -> & Hab).
destruct z as [c|]; [right | now left].
simpl in Hzy. destruct (Rlt_dec c b); [discriminate|].
apply ltb_num. lra.
Qed.

Section LoopTrace.

Variables userLatitude userLongitude : number.

Local Abbreviation dist s :=
  (getDistance userLatitude userLongitude
     (parseFloat (gtfs_latitude s)) (parseFloat (gtfs_longitude s))).
Local Abbreviation loop := (closestLoop userLatitude userLongitude).
Local Abbreviation after := (closestDistanceAfter userLatitude userLongitude).

(** Where the loop took the station it ends on: it is the station it came
    in with, or a station of the list that beat the best distance of the
    stations before it and that no later station beats. *)
Lemma closestLoop_trace (l : list Station) :
  forall cs cd s dd,
    loop l cs cd = Closest s dd ->
    (cs = Closest s dd /\ forall t, In t l -> ltb (dist t) cd = false)
    \/ exists pre post,
         l = pre ++ s :: post
         /\ ltb (dist s) (after pre cd) = true
         /\ dd = after pre cd
         /\ forall t, In t post -> ltb (dist t) (dist s) = false.
Proof.
induction l as [|h r IH]; intros cs cd s dd Hloop; simpl in Hloop.
- left. split; [exact Hloop | intros t []].
- destruct (ltb (dist h) cd) eqn:Hh.
  + right. destruct (IH _ _ _ _ Hloop) as [[Heq Hnone]|(pre & post & -> & Hs & Hdd & Hpost)].
    * injection Heq as <- <-. exists [], r. repeat split; trivial.
    * exists (h :: pre), post. simpl. rewrite Hh. repeat split; trivial.
  + destruct (IH _ _ _ _ Hloop) as [[Heq Hnone]|(pre & post & -> & Hs & Hdd & Hpost)].
    * left. split; [exact Heq|]. intros t [<-|Ht]; [exact Hh | now apply Hnone].
    * right. exists (h :: pre), post. simpl. rewrite Hh. repeat split; trivial.
Qed.

(** The best distance so far is the one the loop came in with or the
    distance of a station it has met. *)
Lemma after_is (l : list Station) :
  forall cd, after l cd = cd \/ exists t, In t l /\ after l cd = dist t.
Proof.
induction l as [|h r IH]; intros cd; simpl.
- now left.
- destruct (ltb (dist h) cd).
  + right. destruct (IH (dist h)) as [H|(t & Ht & H)].
    * exists h. split; [now left | exact H].
    * exists t. split; [now right | exact H].
  + destruct (IH cd) as [H|(t & Ht & H)]; [now left|].
    right. exists t. split; [now right | exact H].
Qed.

(** A loop that no station of the list enters leaves [closestStation] as
    it was. *)
Lemma closestLoop_idle (l : list Station) :
  forall cs cd, (forall t, In t l -> ltb (dist t) cd = false) -> loop l cs cd = cs.
Proof.
induction l as [|h r IH]; intros cs cd Hall; simpl.
- reflexivity.
- rewrite (Hall h (or_introl eq_refl)). apply IH. intros t Ht. apply Hall. now right.
Qed.

End LoopTrace.

Section NearestFacts.

Context {Detail Elevator : Type}.

Lemma stationByLocation_trace (c : infoCache Detail Elevator) (lat lng : string)
    (s : Station) (dd : number) :
  stationByLocation c lat lng = Callback None (Some (Closest s dd)) ->
  exists sl pre post,
    getStationList c = Some sl
    /\ station sl = Many (pre ++ s :: post)
    /\ ltb (stationDistance lat lng s)
           (closestDistanceAfter (parseFloat lat) (parseFloat lng) pre (num 999999.9)) = true
    /\ dd = closestDistanceAfter (parseFloat lat) (parseFloat lng) pre (num 999999.9)
    /\ forall t, In t post ->
         ltb (stationDistance lat lng t) (stationDistance lat lng s) = false.
Proof.
intros H. destruct (stationList c) as [sl|] eqn:Hsl.
2:{ unfold stationByLocation, cachedStations, getStationList in H.
    rewrite Hsl in H. discriminate. }
rewrite (stationByLocation_cached c sl lat lng Hsl) in H. injection H as H.
destruct (closestLoop_trace _ _ _ _ _ _ _ H) as [[Heq _]|(pre & post & Hl & Hs & Hdd & Hpost)].
- discriminate.
- exists sl, pre, post. repeat split; trivial.
  destruct (station sl) as [one|l]; simpl in Hl.
  + destruct pre; discriminate.
  + now rewrite Hl.
Qed.

(** X4: the station [stationByLocation] returns has numeric coordinates
    and is the first nearest one of the cached list: every station before
    it in the list is strictly farther from the query point, or at no
    distance at all, and no station after it is strictly nearer. *)
Theorem X4_stationByLocation_first_nearest
    (c : infoCache Detail Elevator) (lat lng : string) (s : Station) (dd : number) :
  stationByLocation c lat lng = Callback None (Some (Closest s dd)) ->
  exists sl pre post,
    getStationList c = Some sl
    /\ station sl = Many (pre ++ s :: post)
    /\ numeric (parseFloat (gtfs_latitude s))
    /\ numeric (parseFloat (gtfs_longitude s))
    /\ (forall t, In t pre ->
          ltb (stationDistance lat lng s) (stationDistance lat lng t) = true
          \/ stationDistance lat lng t = NaN)
    /\ (forall t, In t post ->
          ltb (stationDistance lat lng t) (stationDistance lat lng s) = false).
Proof.
intros H.
destruct (stationByLocation_trace c lat lng s dd H)
  as (sl & pre & post & Hc & Hl & Hs & _ & Hpost).
exists sl, pre, post.
destruct (ltb_true_inv _ _ Hs) as (a & b & Ha & _ & _).
assert (Hnum : numeric (stationDistance lat lng s)) by (rewrite Ha; discriminate).
destruct (getDistance_numeric _ _ _ _ Hnum) as (_ & _ & rc & rd & _ & _ & Hc' & Hd').
repeat split; trivial.
- rewrite Hc'. discriminate.
- rewrite Hd'. discriminate.
- intros t Ht.
  pose proof (after_minimal (parseFloat lat) (parseFloat lng) pre (num 999999.9) t Ht) as Hmin.
  destruct (ltb_between _ _ _ Hs Hmin) as [Hn|Hlt]; [now right | now left].
Qed.

(** X5: the [distance] written on the returned station is not measured to
    that station: it is the smallest distance among the stations before it
    in the list, and 999999.9 when none of them has a distance; the
    station's own distance is strictly smaller. *)
Theorem X5_stationByLocation_reported_distance
    (c : infoCache Detail Elevator) (lat lng : string) (s : Station) (dd : number) :
  stationByLocation c lat lng = Callback None (Some (Closest s dd)) ->
  exists sl pre post,
    getStationList c = Some sl
    /\ station sl = Many (pre ++ s :: post)
    /\ (dd = num 999999.9 \/ exists t, In t pre /\ dd = stationDistance lat lng t)
    /\ (forall t, In t pre -> ltb (stationDistance lat lng t) dd = false)
    /\ ltb (stationDistance lat lng s) dd = true.
Proof.
intros H.
destruct (stationByLocation_trace c lat lng s dd H)
  as (sl & pre & post & Hc & Hl & Hs & Hdd & _).
exists sl, pre, post. rewrite Hdd. repeat split; trivial.
- apply after_is.
- intros t Ht. now apply after_minimal.
Qed.

(** X6: with the station list cached, [stationByLocation] calls back with
    the empty object exactly when no element of the cached station array has
    a computed distance below 999999.9, the value [closestDistance] starts
    from.  That is so when every computed distance is [NaN], and when the
    list is cached as a bare station, which has no element. *)
Theorem X6_stationByLocation_empty_object
    (c : infoCache Detail Elevator) (sl : StationList) (lat lng : string) :
  getStationList c = Some sl ->
  (stationByLocation c lat lng = Callback None (Some EmptyObject)
   <-> forall s, In s (elements (station sl)) ->
         ltb (stationDistance lat lng s) (num 999999.9) = false).
Proof.
intros Hc. rewrite (stationByLocation_cached c sl lat lng Hc). split.
- intros H. injection H as H.
  destruct (closestLoop_cases (parseFloat lat) (parseFloat lng) (elements (station sl))
              EmptyObject (num 999999.9)) as [[_ Hnone]|(s & dd & _ & Heq)].
  + exact Hnone.
  + rewrite H in Heq. discriminate.
- intros Hall. now rewrite closestLoop_idle.
Qed.

End NearestFacts.

Lemma X4_stationByLocation_first_nearest_witness :
  exists sl pre post,
    getStationList
      (cacheOf (Detail := unit) (Elevator := unit) [nineteenthStreet; twelfthStreet])
    = Some sl
    /\ station sl = Many (pre ++ twelfthStreet :: post)
    /\ numeric (parseFloat (gtfs_latitude twelfthStreet))
    /\ numeric (parseFloat (gtfs_longitude twelfthStreet))
    /\ (forall t, In t pre ->
          ltb (stationDistance "37.803664" "-122.271604" twelfthStreet)
              (stationDistance "37.803664" "-122.271604" t) = true
          \/ stationDistance "37.803664" "-122.271604" t = NaN)
    /\ (forall t, In t post ->
          ltb (stationDistance "37.803664" "-122.271604" t)
              (stationDistance "37.803664" "-122.271604" twelfthStreet) = false).
Proof.
exact (X4_stationByLocation_first_nearest _ _ _ _ _ query_from_twelfth).
Defined.

Lemma X5_stationByLocation_reported_distance_witness :
  exists sl pre post,
    getStationList
      (cacheOf (Detail := unit) (Elevator := unit) [nineteenthStreet; twelfthStreet])
    = Some sl
    /\ station sl = Many (pre ++ twelfthStreet :: post)
    /\ (stationDistance "37.803664" "-122.271604" nineteenthStreet = num 999999.9
        \/ exists t, In t pre
             /\ stationDistance "37.803664" "-122.271604" nineteenthStreet
                = stationDistance "37.803664" "-122.271604" t)
    /\ (forall t, In t pre ->
          ltb (stationDistance "37.803664" "-122.271604" t)
              (stationDistance "37.803664" "-122.271604" nineteenthStreet) = false)
    /\ ltb (stationDistance "37.803664" "-122.271604" twelfthStreet)
           (stationDistance "37.803664" "-122.271604" nineteenthStreet) = true.
Proof.
exact (X5_stationByLocation_reported_distance _ _ _ _ _ query_from_twelfth).
Defined.

Lemma X6_stationByLocation_empty_object_witness :
  stationByLocation
    (cacheOf (Detail := unit) (Elevator := unit) [nineteenthStreet; twelfthStreet])
    "north" "-122.271604"
  = Callback None (Some EmptyObject)
  /\ stationByLocation loneStationCache "37.803664" "-122.271604"
     = Callback None (Some EmptyObject).
Proof.
split.
- apply (proj2 (X6_stationByLocation_empty_object
                  (cacheOf (Detail := unit) (Elevator := unit)
                     [nineteenthStreet; twelfthStreet])
                  {| station := Many [nineteenthStreet; twelfthStreet] |}
                  "north" "-122.271604" eq_refl)).
  intros s _. unfold stationDistance. change (parseFloat "north") with NaN.
  rewrite getDistance_NaN_user. reflexivity.
- apply (proj2 (X6_stationByLocation_empty_object loneStationCache
                  {| station := Single twelfthStreet |}
                  "37.803664" "-122.271604" eq_refl)).
  intros s [].
Defined.

(* ===================================================================== *)
(** ** Further properties: the two refresh cycles *)
(* ===================================================================== *)


Section RefreshFacts.

Context {Detail Elevator : Type}.
Variable env_BART_API_KEY : option string.
Variable httpRequest : requestOptions -> reply.
Variable parseStations : string -> parsed (option StationList).
Variable parseElevator : string -> parsed (option Elevator).

Local Abbreviation cache := (infoCache Detail Elevator).
Local Abbreviation store :=
  (storeStationList (Detail := Detail) (Elevator := Elevator)
     env_BART_API_KEY httpRequest parseStations).
Local Abbreviation elevator :=
  (loadElevatorStatus (Detail := Detail) (Elevator := Elevator)
     env_BART_API_KEY httpRequest parseElevator).
Local Abbreviation listReply :=
  (httpRequest (buildHttpRequestOptions env_BART_API_KEY "stn.aspx?cmd=stns")).
Local Abbreviation elevatorReply :=
  (httpRequest (buildHttpRequestOptions env_BART_API_KEY "bsa.aspx?cmd=elev")).


(** X8: a refresh throws, before it writes the cache, exactly when the
    request fails or the part it stores cannot be read from the parsed
    payload.  Otherwise it replaces its own slot by that part, which is
    [undefined] when the payload has nothing there, and leaves the three
    other slots as they were.  This holds for the station list and for the
    elevator status. *)
Theorem X8_refresh_writes_its_slot_or_throws (c : cache) :
  ((store c = Throw TypeError
    /\ (listReply = Failed
        \/ exists body,
             listReply = Body body
             /\ (parseStations (replace rawColiseum coliseum body) = ParseError
                 \/ parseStations (replace rawColiseum coliseum body) = Unreadable)))
   \/ exists body stations c',
        listReply = Body body
        /\ parseStations (replace rawColiseum coliseum body) = Result stations
        /\ store c = Ret c'
        /\ getStationList c' = stations
        /\ getStationInfo c' = getStationInfo c
        /\ getStationAccess c' = getStationAccess c
        /\ getElevatorStatus c' = getElevatorStatus c)
  /\ ((elevator c = Throw TypeError
       /\ (elevatorReply = Failed
           \/ exists body,
                elevatorReply = Body body
                /\ (parseElevator body = ParseError \/ parseElevator body = Unreadable)))
      \/ exists body root c',
           elevatorReply = Body body
           /\ parseElevator body = Result root
           /\ elevator c = Ret c'
           /\ getElevatorStatus c' = root
           /\ getStationList c' = getStationList c
           /\ getStationInfo c' = getStationInfo c
           /\ getStationAccess c' = getStationAccess c).
Proof.
split.
- unfold storeStationList. destruct listReply as [|body]; simpl.
  + left. split; [reflexivity | now left].
  + destruct (parseStations (replace rawColiseum coliseum body)) as [| |l] eqn:Hp; simpl.
    * left. split; [reflexivity|]. right. exists body. split; [reflexivity | now left].
    * left. split; [reflexivity|]. right. exists body. split; [reflexivity | now right].
    * right. exists body, l, (updateStationList c l). repeat split; trivial.
- unfold loadElevatorStatus. destruct elevatorReply as [|body]; simpl.
  + left. split; [reflexivity | now left].
  + destruct (parseElevator body) as [| |root] eqn:Hp; simpl.
    * left. split; [reflexivity|]. right. exists body. split; [reflexivity | now left].
    * left. split; [reflexivity|]. right. exists body. split; [reflexivity | now right].
    * right. exists body, root, (updateElevatorStatus c root). repeat split; trivial.
Qed.

(** X9: the two refresh cycles do not interfere: run one after the other on
    the same cache, they end in the same way in either order, with the same
    cache when both go through and with a throw when one of them fails. *)
Theorem X9_refresh_cycles_commute (c : infoCache Detail Elevator) :
  (c1 <- storeStationList env_BART_API_KEY httpRequest parseStations c ;;
   loadElevatorStatus env_BART_API_KEY httpRequest parseElevator c1)
  = (c2 <- loadElevatorStatus env_BART_API_KEY httpRequest parseElevator c ;;
     storeStationList env_BART_API_KEY httpRequest parseStations c2).
Proof.
unfold storeStationList, loadElevatorStatus.
destruct listReply as [|body]; destruct elevatorReply as [|body']; simpl; trivial.
- destruct (parseElevator body'); reflexivity.
- destruct (parseStations (replace rawColiseum coliseum body)); reflexivity.
- destruct (parseStations (replace rawColiseum coliseum body));
    destruct (parseElevator body'); reflexivity.
Qed.

End RefreshFacts.


(* ===================================================================== *)
(** ** Further properties: the fan-out *)
(* ===================================================================== *)

Section SortedUnique.

Context {A : Type}.
Variable key : A -> string.

Lemma same_key_same_entry (l : list A) (x y : A) :
  NoDup (map key l) -> In x l -> In y l -> key x = key y -> x = y.
Proof.
induction l as [|h r IH]; intros Hnd Hx Hy E; [destruct Hx|].
simpl in Hnd. inversion Hnd as [|? ? Hh Hr]; subst.
destruct Hx as [->|Hx], Hy as [->|Hy]; trivial.
- elim Hh. rewrite E. now apply in_map.
- elim Hh. rewrite <- E. now apply in_map.
- now apply IH.
Qed.

(** Two lists in ascending order of keys that are all different, with the
    same entries, are the same list. *)
Lemma sorted_perm_unique (l : list A) :
  forall l',
    StronglySorted (ascending key) l ->
    StronglySorted (ascending key) l' ->
    Permutation l l' ->
    NoDup (map key l) ->
    l = l'.
Proof.
induction l as [|x r IH]; intros l' Hs Hs' Hperm Hnd.
- symmetry. now apply Permutation_nil.
- destruct l' as [|y r'].
  + apply Permutation_sym, Permutation_nil in Hperm. discriminate.
  + inversion Hs as [|? ? Hsr Hx]; subst. inversion Hs' as [|? ? Hsr' Hy]; subst.
    assert (Hxy : x = y).
    { assert (Hyl : In y (x :: r))
        by (apply (Permutation_in _ (Permutation_sym Hperm)); now left).
      assert (Hxl : In x (y :: r')) by (apply (Permutation_in _ Hperm); now left).
      destruct Hyl as [E|Hyr]; [exact E|].
      destruct Hxl as [E|Hxr']; [now symmetry|].
      rewrite Forall_forall in Hx, Hy.
      apply (same_key_same_entry (x :: r)); trivial; [now left | now right|].
      apply String.leb_antisym; [apply (Hx y Hyr) | apply (Hy x Hxr')]. }
    subst y. f_equal. apply IH; trivial.
    * now apply Permutation_cons_inv in Hperm.
    * simpl in Hnd. now inversion Hnd.
Qed.

End SortedUnique.

Lemma Forall2_functional {A B : Type} (R : A -> B -> Prop) (l : list A) :
  (forall a b b', R a b -> R a b' -> b = b') ->
  forall m m', Forall2 R l m -> Forall2 R l m' -> m = m'.
Proof.
intros Hfun. induction l as [|a r IH]; intros m m' H H';
  inversion H; subst; inversion H'; subst; trivial.
f_equal; [eapply Hfun; eassumption | now apply IH].
Qed.

Section FanoutMore.

Context {Detail Elevator : Type}.
Variable env_BART_API_KEY : option string.
Variable httpRequest : requestOptions -> reply.
Variables parseAccess parseInfo : string -> parsed Detail.
Variable detailName : Detail -> string.

Local Abbreviation fanoutState := (@fanout Detail Elevator).
Local Abbreviation fetch := (fetchDetail env_BART_API_KEY httpRequest).
Local Abbreviation dispatch :=
  (getStationInfoAndAccess (Detail := Detail) (Elevator := Elevator) detailName).
Local Abbreviation step :=
  (complete (Elevator := Elevator) env_BART_API_KEY httpRequest parseAccess parseInfo detailName).
Local Abbreviation runEvents :=
  (runFanout (Elevator := Elevator) env_BART_API_KEY httpRequest parseAccess parseInfo detailName).
Local Abbreviation runCaught :=
  (runFanoutCaught (Elevator := Elevator) env_BART_API_KEY httpRequest parseAccess parseInfo
     detailName).
Local Abbreviation finish := (batchComplete env_BART_API_KEY httpRequest detailName).
Local Abbreviation runBatch := (batchRun env_BART_API_KEY httpRequest detailName).
Local Abbreviation entries := (delivered env_BART_API_KEY httpRequest).

Lemma complete_other_slots (ev : completion) (f f' : fanoutState) :
  step ev f = Ret f' -> sameOtherSlots f f'.
Proof.
intros Hstep. destruct ev as [n|n].
- pose proof (complete_AccessDone env_BART_API_KEY httpRequest parseAccess parseInfo
                detailName n f) as H.
  destruct (finish parseAccess n (accessView f)) as [v|e].
  + destruct H as (f1 & Hs & _ & _ & Hsame). rewrite Hstep in Hs.
    injection Hs as <-. exact Hsame.
  + rewrite Hstep in H. discriminate.
- pose proof (complete_InfoDone env_BART_API_KEY httpRequest parseAccess parseInfo
                detailName n f) as H.
  destruct (finish parseInfo n (infoView f)) as [v|e].
  + destruct H as (f1 & Hs & _ & _ & Hsame). rewrite Hstep in Hs.
    injection Hs as <-. exact Hsame.
  + rewrite Hstep in H. discriminate.
Qed.

Lemma runFanout_other_slots (events : list completion) :
  forall f,
    stationList (finalCache (runEvents events f)) = stationList (cached f)
    /\ elevatorStatus (finalCache (runEvents events f)) = elevatorStatus (cached f).
Proof.
induction events as [|ev rest IH]; intros f; simpl.
- now split.
- destruct (step ev f) as [f1|e] eqn:Hstep; simpl; [|now split].
  destruct (complete_other_slots ev f f1 Hstep) as [Hl He].
  destruct (IH f1) as [Hl' He']. split; congruence.
Qed.

Lemma runFanoutCaught_other_slots (events : list completion) :
  forall f,
    stationList (cached (runCaught events f)) = stationList (cached f)
    /\ elevatorStatus (cached (runCaught events f)) = elevatorStatus (cached f).
Proof.
induction events as [|ev rest IH]; intros f; simpl.
- now split.
- destruct (step ev f) as [f1|e] eqn:Hstep; [|apply IH].
  destruct (complete_other_slots ev f f1 Hstep) as [Hl He].
  destruct (IH f1) as [Hl' He']. split; congruence.
Qed.

(** X10: the fan-out needs the station list and writes nothing else than
    the station access and station info slots: without a cached station
    list [getStationInfoAndAccess] throws, and with one, whatever requests
    complete, in whatever order, and however the run ends, the station list
    and the elevator status are in the cache as they were. *)
Theorem X10_fanout_leaves_other_slots
    (c : infoCache Detail Elevator) (events : list completion) :
  match dispatch c with
  | Throw e => getStationList c = None /\ e = TypeError
  | Ret f0 =>
      getStationList c <> None
      /\ getStationList (finalCache (runEvents events f0)) = getStationList c
      /\ getElevatorStatus (finalCache (runEvents events f0)) = getElevatorStatus c
      /\ getStationList (cached (runCaught events f0)) = getStationList c
      /\ getElevatorStatus (cached (runCaught events f0)) = getElevatorStatus c
  end.
Proof.
unfold getStationInfoAndAccess, cachedStations, getStationList, getElevatorStatus.
destruct (stationList c) as [sl|] eqn:Hc; simpl; [|now split].
set (f0 := infoFinal detailName (accessFinal detailName _)).
assert (H0 : stationList (cached f0) = stationList c
             /\ elevatorStatus (cached f0) = elevatorStatus c).
{ unfold f0, infoFinal, accessFinal. simpl.
  destruct (allDone _); simpl; destruct (allDone _); simpl; now split. }
destruct H0 as [Hl He].
destruct (runFanout_other_slots events f0) as [Hl1 He1].
destruct (runFanoutCaught_other_slots events f0) as [Hl2 He2].
repeat split; try congruence.
Qed.

End FanoutMore.

Section BatchMore.

Context {Detail : Type}.
Variable env_BART_API_KEY : option string.
Variable httpRequest : requestOptions -> reply.
Variable detailName : Detail -> string.
Variable parser : string -> parsed Detail.

Local Abbreviation fetch := (fetchDetail env_BART_API_KEY httpRequest parser).
Local Abbreviation finish := (batchComplete env_BART_API_KEY httpRequest detailName parser).
Local Abbreviation runBatch := (batchRun env_BART_API_KEY httpRequest detailName parser).

(** Completions for requests that were never made change nothing. *)
Lemma batchRun_skip_unrequested (order : list nat) :
  forall v,
    runBatch order v
    = runBatch (filter (fun n => (n <? List.length (urls (fst v)))%nat) order) v.
Proof.
induction order as [|n rest IH]; intros v; [reflexivity|].
cbn [filter]. destruct (n <? List.length (urls (fst v)))%nat eqn:Hn.
- cbn [batchRun]. destruct (finish n v) as [v1|e] eqn:Hstep; [|reflexivity].
  simpl. rewrite (IH v1).
  now rewrite (batchComplete_urls env_BART_API_KEY httpRequest detailName parser n v v1 Hstep).
- cbn [batchRun]. unfold batchComplete at 1.
  apply Nat.ltb_ge, nth_error_None in Hn. rewrite Hn. simpl. apply IH.
Qed.

(** In a run that does not throw, every completed request has delivered. *)
Lemma batchRun_delivers (order : list nat) (v v' : batchView) (n : nat) (url : string) :
  runBatch order v = Ret v' ->
  In n order ->
  nth_error (urls (fst v)) n = Some url ->
  exists d, fetch url = Ret d.
Proof.
intros Hrun Hin Hnth. destruct (fetch url) as [d|e] eqn:Hf; [now exists d|].
elim (batchRun_all_delivered env_BART_API_KEY httpRequest detailName parser
        order v v' n url e Hrun Hnth Hf Hin).
Qed.

(** A batch for a non-empty station list leaves its slot as it was, or puts
    in it the sorted aggregate of one entry for each station. *)
Lemma batch_publishes_all_or_nothing (url : Station -> string)
    (stations : list Station) (order : list nat)
    (slot slot' : option (list Detail)) (b : batch) :
  stations <> [] ->
  NoDup order ->
  runBatch order ({| urls := map url stations; pushed := []; completed := 0 |}, slot)
  = Ret (b, slot') ->
  slot' = slot
  \/ exists aggregate perStation,
       slot' = Some aggregate
       /\ Forall2 (fun s d => fetch (url s) = Ret d) stations perStation
       /\ Permutation perStation aggregate
       /\ StronglySorted (ascending detailName) aggregate.
Proof.
intros Hne Hnd Hrun.
set (v0 := ({| urls := map url stations; pushed := []; completed := 0 |}, slot)) in *.
set (valid := filter (fun n => (n <? List.length (urls (fst v0)))%nat) order).
assert (Hlen0 : List.length (urls (fst v0)) = List.length stations)
  by (simpl; apply length_map).
assert (Hincl : incl valid (seq 0 (List.length stations))).
{ intros n Hn. apply filter_In in Hn. destruct Hn as [_ Hn].
  apply Nat.ltb_lt in Hn. apply in_seq. lia. }
assert (Hndv : NoDup valid) by (now apply NoDup_filter).
pose proof (NoDup_incl_length Hndv Hincl) as Hle. rewrite length_seq in Hle.
destruct (Nat.lt_ge_cases (List.length valid) (List.length stations)) as [Hlt|Hge].
- left.
  apply (batchRun_slot_kept env_BART_API_KEY httpRequest detailName parser order v0 (b, slot')
           Hrun).
  unfold requested. fold valid. simpl completed. rewrite Hlen0. exact Hlt.
- right.
  assert (Hperm : Permutation valid (seq 0 (List.length stations))).
  { apply NoDup_Permutation_bis; trivial. rewrite length_seq. exact Hge. }
  assert (Hok : forall s, In s stations -> exists d, fetch (url s) = Ret d).
  { intros s Hs. destruct (In_nth_error _ _ Hs) as [i Hi].
    assert (Hiv : In i valid).
    { apply (Permutation_in _ (Permutation_sym Hperm)), in_seq.
      assert (i < List.length stations)%nat by (apply nth_error_Some; congruence). lia. }
    apply filter_In in Hiv. destruct Hiv as [Hio _].
    apply (batchRun_delivers order v0 (b, slot') i (url s) Hrun Hio).
    simpl. now apply map_nth_error. }
  destruct (batch_aggregate env_BART_API_KEY httpRequest detailName parser url stations
              valid slot Hne Hperm Hok)
    as (b' & aggregate & perStation & Hrun' & Hf2 & Hp & Hs).
  rewrite batchRun_skip_unrequested in Hrun. fold valid in Hrun. fold v0 in Hrun'.
  rewrite Hrun' in Hrun. injection Hrun as _ <-.
  now exists aggregate, perStation.
Qed.

End BatchMore.

Section FanoutPublish.

Context {Detail Elevator : Type}.
Variable env_BART_API_KEY : option string.
Variable httpRequest : requestOptions -> reply.
Variables parseAccess parseInfo : string -> parsed Detail.
Variable detailName : Detail -> string.

Local Abbreviation fetch := (fetchDetail env_BART_API_KEY httpRequest).
Local Abbreviation dispatch :=
  (getStationInfoAndAccess (Detail := Detail) (Elevator := Elevator) detailName).
Local Abbreviation runEvents :=
  (runFanout (Elevator := Elevator) env_BART_API_KEY httpRequest parseAccess parseInfo detailName).
Local Abbreviation runCaught :=
  (runFanoutCaught (Elevator := Elevator) env_BART_API_KEY httpRequest parseAccess parseInfo
     detailName).
Local Abbreviation runBatch := (batchRun env_BART_API_KEY httpRequest detailName).
Local Abbreviation entries := (delivered env_BART_API_KEY httpRequest).
Local Abbreviation pushes := (pushedBy env_BART_API_KEY httpRequest).

Local Abbreviation publishes := (allOrNothing env_BART_API_KEY httpRequest detailName).

Lemma finished_run_publishes (c : infoCache Detail Elevator) (sl : StationList)
    (handled : list completion) (f0 f : @fanout Detail Elevator) :
  getStationList c = Some sl ->
  dispatch c = Ret f0 ->
  runEvents handled f0 = Finished f ->
  NoDup (accessOrder handled) ->
  NoDup (infoOrder handled) ->
  publishes parseAccess stationAccessURL (elements (station sl))
    (stationAccess c) (stationAccess (cached f))
  /\ publishes parseInfo stationInfoURL (elements (station sl))
       (stationInfo c) (stationInfo (cached f)).
Proof.
intros Hc Hd Hrun Hnda Hndi.
destruct (runFanout_views env_BART_API_KEY httpRequest parseAccess parseInfo detailName
            handled f0 f Hrun) as (Hva & Hvi & _).
destruct (elements (station sl)) as [|s0 r] eqn:Hst.
- (* no station: both slots were written when the fan-out started *)
  unfold getStationInfoAndAccess, cachedStations in Hd. rewrite Hc in Hd.
  simpl in Hd. rewrite Hst in Hd. simpl in Hd. injection Hd as <-.
  rewrite batchRun_skip_unrequested in Hva, Hvi.
  assert (Hnone : forall order : list nat, filter (fun n => (n <? 0)%nat) order = []).
  { induction order as [|n o IH]; simpl; trivial. }
  unfold accessView, infoView, infoFinal, accessFinal in Hva, Hvi.
  simpl in Hva, Hvi. rewrite Hnone in Hva, Hvi. simpl in Hva, Hvi.
  injection Hva as _ Ha. injection Hvi as _ Hi.
  split; right; exists [], []; rewrite <- ?Ha, <- ?Hi; repeat split; constructor.
- rewrite <- Hst in *.
  assert (Hne : elements (station sl) <> []) by (rewrite Hst; discriminate).
  rewrite (getStationInfoAndAccess_start detailName c sl Hc Hne) in Hd.
  injection Hd as <-.
  unfold accessView in Hva. unfold infoView in Hvi. cbn [access info cached] in Hva, Hvi.
  split.
  + apply (batch_publishes_all_or_nothing env_BART_API_KEY httpRequest detailName parseAccess
             stationAccessURL (elements (station sl)) (accessOrder handled) _ _ _ Hne Hnda Hva).
  + apply (batch_publishes_all_or_nothing env_BART_API_KEY httpRequest detailName parseInfo
             stationInfoURL (elements (station sl)) (infoOrder handled) _ _ _ Hne Hndi Hvi).
Qed.

(** X11: the fan-out publishes an aggregate whole or not at all.  Whatever
    requests complete or fail, in whatever order, each of the two slots is,
    at the end of the run, either as it was when the fan-out started or the
    list, in ascending order of the names, of exactly one delivered entry
    for each station of the cached list: a slot never holds the entries of
    only some of the stations. *)
Theorem X11_fanout_publishes_all_or_nothing
    (c : infoCache Detail Elevator) (sl : StationList) (events : list completion) :
  getStationList c = Some sl ->
  NoDup (accessOrder events) ->
  NoDup (infoOrder events) ->
  exists f0,
    dispatch c = Ret f0
    /\ publishes parseAccess stationAccessURL (elements (station sl))
         (getStationAccess c) (getStationAccess (finalCache (runEvents events f0)))
    /\ publishes parseInfo stationInfoURL (elements (station sl))
         (getStationInfo c) (getStationInfo (finalCache (runEvents events f0)))
    /\ publishes parseAccess stationAccessURL (elements (station sl))
         (getStationAccess c) (getStationAccess (cached (runCaught events f0)))
    /\ publishes parseInfo stationInfoURL (elements (station sl))
         (getStationInfo c) (getStationInfo (cached (runCaught events f0))).
Proof.
intros Hc Hnda Hndi.
destruct (dispatch c) as [f0|e] eqn:Hd.
2:{ unfold getStationInfoAndAccess, cachedStations in Hd. rewrite Hc in Hd. discriminate. }
exists f0. split; [reflexivity|].
destruct (runFanout_handled env_BART_API_KEY httpRequest parseAccess parseInfo detailName
            events f0 Hnda Hndi) as (h1 & f1 & Hrun1 & Hcache1 & Hnda1 & Hndi1).
destruct (runFanoutCaught_handled env_BART_API_KEY httpRequest parseAccess parseInfo
            detailName events f0 Hnda Hndi) as (h2 & Hrun2 & _ & _ & Hnda2 & Hndi2).
destruct (finished_run_publishes c sl h1 f0 f1 Hc Hd Hrun1 Hnda1 Hndi1) as [Ha1 Hi1].
destruct (finished_run_publishes c sl h2 f0 _ Hc Hd Hrun2 Hnda2 Hndi2) as [Ha2 Hi2].
unfold getStationAccess, getStationInfo. rewrite <- Hcache1.
repeat split; assumption.
Qed.

End FanoutPublish.

Section FanoutOrder.

Context {Detail Elevator : Type}.
Variable env_BART_API_KEY : option string.
Variable httpRequest : requestOptions -> reply.
Variables parseAccess parseInfo : string -> parsed Detail.
Variable detailName : Detail -> string.

Local Abbreviation fetch := (fetchDetail env_BART_API_KEY httpRequest).
Local Abbreviation dispatch :=
  (getStationInfoAndAccess (Detail := Detail) (Elevator := Elevator) detailName).
Local Abbreviation runEvents :=
  (runFanout (Elevator := Elevator) env_BART_API_KEY httpRequest parseAccess parseInfo detailName).
Local Abbreviation runBatch := (batchRun env_BART_API_KEY httpRequest detailName).
Local Abbreviation entries := (delivered env_BART_API_KEY httpRequest).
Local Abbreviation pushes := (pushedBy env_BART_API_KEY httpRequest).

(** The slot of a batch all of whose requests deliver and complete. *)
Lemma batch_sorted_pushes (parser : string -> parsed Detail) (url : Station -> string)
    (stations : list Station) (order : list nat) (slot : option (list Detail)) :
  stations <> [] ->
  Permutation order (seq 0 (List.length stations)) ->
  (forall s, In s stations -> exists d, fetch parser (url s) = Ret d) ->
  exists b,
    runBatch parser order
      ({| urls := map url stations; pushed := []; completed := 0 |}, slot)
    = Ret (b, Some (sortBy detailName (pushes parser (map url stations) order))).
Proof.
intros Hne Hperm Hok.
set (v := ({| urls := map url stations; pushed := []; completed := 0 |}, slot)).
destruct (batchRun_all_done env_BART_API_KEY httpRequest detailName parser order v)
  as (b & Hrun & _ & Hpushed).
- intros n Hn. apply (Permutation_in _ Hperm), in_seq in Hn. simpl.
  destruct (nth_error stations n) as [s|] eqn:Hs.
  + destruct (Hok s (nth_error_In _ _ Hs)) as [d Hd].
    exists (url s), d. split; [|exact Hd]. now apply map_nth_error.
  + apply nth_error_None in Hs. lia.
- simpl. rewrite (Permutation_length Hperm), length_seq, length_map. reflexivity.
- simpl in Hpushed.
  destruct order as [|n rest].
  + apply Permutation_length in Hperm. rewrite length_seq in Hperm.
    destruct stations; [now elim Hne | discriminate].
  + exists b. rewrite Hrun, Hpushed. reflexivity.
Qed.

(** The sorted aggregate does not depend on the order of the pushes when
    the names are all different. *)
Lemma sorted_pushes_same (parser : string -> parsed Detail) (l : list string)
    (order order' : list nat) :
  Permutation order (seq 0 (List.length l)) ->
  Permutation order' (seq 0 (List.length l)) ->
  NoDup (map detailName (entries parser l)) ->
  sortBy detailName (pushes parser l order) = sortBy detailName (pushes parser l order').
Proof.
intros Hp Hp' Hnd.
pose proof (pushedBy_perm env_BART_API_KEY httpRequest parser l order Hp) as H1.
pose proof (pushedBy_perm env_BART_API_KEY httpRequest parser l order' Hp') as H2.
apply (sorted_perm_unique detailName).
- apply sortBy_strongly_sorted.
- apply sortBy_strongly_sorted.
- apply perm_trans with (pushes parser l order); [apply Permutation_sym, sortBy_perm|].
  apply perm_trans with (entries parser l); [now apply Permutation_sym|].
  apply perm_trans with (pushes parser l order'); [exact H2 | apply sortBy_perm].
- apply (Permutation_NoDup (l := map detailName (entries parser l))); trivial.
  apply Permutation_map.
  apply perm_trans with (pushes parser l order); [exact H1 | apply sortBy_perm].
Qed.

(** X12: when the entries of a batch have names that are all different, the
    aggregate that the fan-out caches does not depend on the order in which
    the requests complete: two runs in which every request delivers and
    completes end with the same station access slot and the same station
    info slot. *)
Theorem X12_aggregates_independent_of_completion_order
    (c : infoCache Detail Elevator) (sl : StationList) (events events' : list completion) :
  getStationList c = Some sl ->
  Permutation (accessOrder events) (seq 0 (List.length (elements (station sl)))) ->
  Permutation (infoOrder events) (seq 0 (List.length (elements (station sl)))) ->
  Permutation (accessOrder events') (seq 0 (List.length (elements (station sl)))) ->
  Permutation (infoOrder events') (seq 0 (List.length (elements (station sl)))) ->
  (forall s, In s (elements (station sl)) ->
     exists d, fetch parseAccess (stationAccessURL s) = Ret d) ->
  (forall s, In s (elements (station sl)) ->
     exists d, fetch parseInfo (stationInfoURL s) = Ret d) ->
  NoDup (map detailName (entries parseAccess (map stationAccessURL (elements (station sl))))) ->
  NoDup (map detailName (entries parseInfo (map stationInfoURL (elements (station sl))))) ->
  exists f0 f f',
    dispatch c = Ret f0
    /\ runEvents events f0 = Finished f
    /\ runEvents events' f0 = Finished f'
    /\ getStationAccess (cached f) = getStationAccess (cached f')
    /\ getStationInfo (cached f) = getStationInfo (cached f').
Proof.
intros Hc Hpa Hpi Hpa' Hpi' Hoka Hoki Hnda Hndi.
destruct (elements (station sl)) as [|s0 r] eqn:Hst.
- assert (Hev : forall evs, Permutation (accessOrder evs) (seq 0 0) ->
                            Permutation (infoOrder evs) (seq 0 0) -> evs = []).
  { intros evs H1 H2.
    apply Permutation_sym, Permutation_nil in H1.
    apply Permutation_sym, Permutation_nil in H2.
    destruct evs as [|[n|n] rest]; trivial; discriminate. }
  rewrite (Hev events Hpa Hpi), (Hev events' Hpa' Hpi').
  unfold getStationInfoAndAccess, cachedStations. rewrite Hc. simpl. rewrite Hst. simpl.
  eexists _, _, _. repeat split.
- rewrite <- Hst in *.
  assert (Hne : elements (station sl) <> []) by (rewrite Hst; discriminate).
  rewrite (getStationInfoAndAccess_start detailName c sl Hc Hne).
  set (f0 := {| cached := c; access := _; info := _ |}).
  assert (Hrun : forall evs,
             Permutation (accessOrder evs) (seq 0 (List.length (elements (station sl)))) ->
             Permutation (infoOrder evs) (seq 0 (List.length (elements (station sl)))) ->
             exists f,
               runEvents evs f0 = Finished f
               /\ stationAccess (cached f)
                  = Some (sortBy detailName
                            (pushes parseAccess (map stationAccessURL (elements (station sl)))
                               (accessOrder evs)))
               /\ stationInfo (cached f)
                  = Some (sortBy detailName
                            (pushes parseInfo (map stationInfoURL (elements (station sl)))
                               (infoOrder evs)))).
  { intros evs H1 H2.
    destruct (batch_sorted_pushes parseAccess stationAccessURL (elements (station sl))
                (accessOrder evs) (stationAccess c) Hne H1 Hoka) as [ba Hra].
    destruct (batch_sorted_pushes parseInfo stationInfoURL (elements (station sl))
                (infoOrder evs) (stationInfo c) Hne H2 Hoki) as [bi Hri].
    destruct (runFanout_total env_BART_API_KEY httpRequest parseAccess parseInfo detailName
                evs f0 _ _ Hra Hri) as [f Hf].
    destruct (runFanout_views env_BART_API_KEY httpRequest parseAccess parseInfo detailName
                evs f0 f Hf) as (Hva & Hvi & _).
    unfold accessView in Hva. unfold infoView in Hvi. unfold f0 in Hva, Hvi.
    cbn [access info cached] in Hva, Hvi.
    rewrite Hra in Hva. rewrite Hri in Hvi.
    injection Hva as _ Hsa. injection Hvi as _ Hsi.
    exists f. repeat split; trivial; congruence. }
  destruct (Hrun events Hpa Hpi) as (f & Hf & Ha & Hi).
  destruct (Hrun events' Hpa' Hpi') as (f' & Hf' & Ha' & Hi').
  exists f0, f, f'. unfold getStationAccess, getStationInfo.
  rewrite Ha, Ha', Hi, Hi'.
  repeat split; trivial; f_equal; apply sorted_pushes_same; trivial;
    now rewrite length_map.
Qed.

End FanoutOrder.

Lemma X11_fanout_publishes_all_or_nothing_witness :
  exists f0,
    getStationInfoAndAccess name refreshedCache = Ret f0
    /\ allOrNothing None flakyUpstream name echoParser stationAccessURL
         [nineteenthStreet; twelfthStreet]
         (getStationAccess refreshedCache)
         (getStationAccess
            (finalCache (runFanout None flakyUpstream echoParser echoParser name
                           someOrder f0)))
    /\ allOrNothing None flakyUpstream name echoParser stationInfoURL
         [nineteenthStreet; twelfthStreet]
         (getStationInfo refreshedCache)
         (getStationInfo
            (finalCache (runFanout None flakyUpstream echoParser echoParser name
                           someOrder f0)))
    /\ allOrNothing None flakyUpstream name echoParser stationAccessURL
         [nineteenthStreet; twelfthStreet]
         (getStationAccess refreshedCache)
         (getStationAccess
            (cached (runFanoutCaught None flakyUpstream echoParser echoParser name
                       someOrder f0)))
    /\ allOrNothing None flakyUpstream name echoParser stationInfoURL
         [nineteenthStreet; twelfthStreet]
         (getStationInfo refreshedCache)
         (getStationInfo
            (cached (runFanoutCaught None flakyUpstream echoParser echoParser name
                       someOrder f0))).
Proof.
apply (X11_fanout_publishes_all_or_nothing None flakyUpstream echoParser echoParser name
         refreshedCache {| station := Many [nineteenthStreet; twelfthStreet] |} someOrder eq_refl).
- repeat constructor; simpl; intuition discriminate.
- repeat constructor; simpl; intuition discriminate.
Defined.

Lemma X12_aggregates_independent_of_completion_order_witness :
  exists f0 f f',
    getStationInfoAndAccess name refreshedCache = Ret f0
    /\ runFanout None echoUpstream echoParser echoParser name someOrder f0 = Finished f
    /\ runFanout None echoUpstream echoParser echoParser name
         [AccessDone 0; AccessDone 1; InfoDone 0; InfoDone 1] f0 = Finished f'
    /\ getStationAccess (cached f) = getStationAccess (cached f')
    /\ getStationInfo (cached f) = getStationInfo (cached f').
Proof.
apply (X12_aggregates_independent_of_completion_order None echoUpstream echoParser
         echoParser name refreshedCache {| station := Many [nineteenthStreet; twelfthStreet] |}
         someOrder [AccessDone 0; AccessDone 1; InfoDone 0; InfoDone 1] eq_refl).
- apply perm_swap.
- apply perm_swap.
- apply Permutation_refl.
- apply Permutation_refl.
- intros s [<-|[<-|[]]]; eexists; reflexivity.
- intros s [<-|[<-|[]]]; eexists; reflexivity.
- repeat constructor; simpl; intuition discriminate.
- repeat constructor; simpl; intuition discriminate.
Defined.

(* ===================================================================== *)
(** ** Further properties: the live queries and the requests *)
(* ===================================================================== *)

(** X13: [getServiceAnnouncements] ends in one of three ways.  It calls
    back with a result, whose [bsa] field is then an array: the array of the
    document, or the array of its one bare element.  It calls back with the
    error of the parser: the request failed or its body did not parse.  Or
    the parser reported no error and nothing to read a root from, as it does
    for a body with no text: reading [res.root] throws, and the callback is
    never called. *)
Theorem X13_getServiceAnnouncements_outcomes {Announcement : Type}
    (env_BART_API_KEY : option string) (httpRequest : requestOptions -> reply)
    (parseBsa : string -> parsed (bsaRoot Announcement)) :
  (exists body root l,
      httpRequest (buildHttpRequestOptions env_BART_API_KEY "bsa.aspx?cmd=bsa&date=today")
      = Body body
      /\ parseBsa body = Result root
      /\ (bsa root = Many l \/ exists a, bsa root = Single a /\ l = [a])
      /\ getServiceAnnouncements env_BART_API_KEY httpRequest parseBsa
         = Callback None (Some {| bsa := Many l |}))
  \/ (getServiceAnnouncements env_BART_API_KEY httpRequest parseBsa
      = Callback (Some XmlError) None
      /\ (httpRequest (buildHttpRequestOptions env_BART_API_KEY "bsa.aspx?cmd=bsa&date=today")
          = Failed
          \/ exists body,
               httpRequest (buildHttpRequestOptions env_BART_API_KEY
                              "bsa.aspx?cmd=bsa&date=today") = Body body
               /\ parseBsa body = ParseError))
  \/ (getServiceAnnouncements env_BART_API_KEY httpRequest parseBsa = Throws TypeError
      /\ exists body,
           httpRequest (buildHttpRequestOptions env_BART_API_KEY
                          "bsa.aspx?cmd=bsa&date=today") = Body body
           /\ parseBsa body = Unreadable).
Proof.
unfold getServiceAnnouncements.
destruct (httpRequest _) as [|body]; simpl.
- right. left. split; [reflexivity | now left].
- destruct (parseBsa body) as [| |root] eqn:Hp.
  + right. left. split; [reflexivity|]. right. now exists body.
  + right. right. split; [reflexivity|]. now exists body.
  + left. destruct root as [[a|l]]; simpl.
    * exists body, {| bsa := Single a |}, [a]. repeat split; trivial.
      right. now exists a.
    * exists body, {| bsa := Many l |}, l. repeat split; trivial. now left.
Qed.

Section UpstreamDown.

Context {Detail Elevator Announcement Count : Type}.
Variable env_BART_API_KEY : option string.
Variable httpRequest : requestOptions -> reply.
Variable parseStations : string -> parsed (option StationList).
Variable parseElevator : string -> parsed (option Elevator).
Variable parseBsa : string -> parsed (bsaRoot Announcement).
Variable parseCount : string -> parsed (option Count).
Variable parseSchedule : string -> parsed trip.
Variable newDate : string -> number.

(** X14: when no request gets through, no live query throws: [status] and
    [getConnectionData] hand the error of the request to their callbacks,
    whatever is in the cache, and [getServiceAnnouncements] hands the error
    of the parser; both refresh cycles throw, before they write the
    cache. *)
Theorem X14_upstream_down (c : infoCache Detail Elevator) (cnxn : connection) :
  (forall o, httpRequest o = Failed) ->
  status env_BART_API_KEY httpRequest parseCount = Callback (Some RequestError) None
  /\ getConnectionData env_BART_API_KEY httpRequest parseSchedule newDate c cnxn
     = Callback (Some RequestError) None
  /\ getServiceAnnouncements env_BART_API_KEY httpRequest parseBsa
     = Callback (Some XmlError) None
  /\ storeStationList env_BART_API_KEY httpRequest parseStations c = Throw TypeError
  /\ loadElevatorStatus env_BART_API_KEY httpRequest parseElevator c = Throw TypeError.
Proof.
intros Hdown.
unfold status, getConnectionData, getServiceAnnouncements, storeStationList,
  loadElevatorStatus.
rewrite !Hdown. repeat split.
Qed.

End UpstreamDown.

Lemma X14_upstream_down_witness :
  status (Count := string) None downUpstream keepRoot = Callback (Some RequestError) None
  /\ getConnectionData None downUpstream morningParser (LocalDate.newDate (-480))
       refreshedCache {| start := "12th"; cnxnDestination := "19th" |}
     = Callback (Some RequestError) None
  /\ getServiceAnnouncements None downUpstream oneAnnouncement
     = Callback (Some XmlError) None
  /\ storeStationList None downUpstream oneStation refreshedCache = Throw TypeError
  /\ loadElevatorStatus None downUpstream (fun _ : string => Result (Some tt)) refreshedCache
     = Throw TypeError.
Proof.
apply (X14_upstream_down None downUpstream oneStation (fun _ : string => Result (Some tt))
         oneAnnouncement keepRoot morningParser (LocalDate.newDate (-480))
         refreshedCache {| start := "12th"; cnxnDestination := "19th" |}).
reflexivity.
Defined.

Section ConnectionFacts.

Context {Detail Elevator : Type}.
Variable env_BART_API_KEY : option string.
Variable httpRequest : requestOptions -> reply.
Variable parseSchedule : string -> parsed trip.
Variable newDate : string -> number.

Local Abbreviation connect :=
  (getConnectionData (Detail := Detail) (Elevator := Elevator)
     env_BART_API_KEY httpRequest parseSchedule newDate).

Lemma enrichLegs_uncached (c : infoCache Detail Elevator) (ls : list leg) :
  getStationList c = None -> ls <> [] -> enrichLegs c ls = Throw TypeError.
Proof.
intros Hc Hne. destruct ls as [|l r]; [now elim Hne|].
simpl. unfold enrichLeg, getStationName, cachedStations. rewrite Hc. reflexivity.
Qed.

Lemma enrichLegs_enriched (c : infoCache Detail Elevator) (sl : StationList)
    (ls : list leg) :
  getStationList c = Some sl ->
  exists ls', enrichLegs c ls = Ret ls' /\ Forall2 (enriched (elements (station sl))) ls ls'.
Proof.
intros Hc. induction ls as [|l r (r' & Hr & IH)]; simpl.
- exists []. split; [reflexivity | constructor].
- unfold enrichLeg, getStationName, cachedStations. rewrite Hc. simpl.
  rewrite Hr. simpl. eexists. split; [reflexivity|].
  constructor; [|exact IH]. repeat split.
Qed.

(** X15: [getConnectionData] does not look at the error of the parser.
    On a schedule request that is answered, it throws, and never calls
    back, when the trip cannot be read from the parsed body, and when the
    trip has a leg and there is no cached station list to look the stations
    of the leg up in. *)
Theorem X15_getConnectionData_throws
    (c : infoCache Detail Elevator) (cnxn : connection) (body : string) :
  httpRequest (buildHttpRequestOptions env_BART_API_KEY (scheduleUrl cnxn)) = Body body ->
  (parseSchedule body = ParseError \/ parseSchedule body = Unreadable ->
   connect c cnxn = Throws TypeError)
  /\ (forall t, parseSchedule body = Result t ->
                getStationList c = None ->
                legList t <> [] ->
                connect c cnxn = Throws TypeError).
Proof.
intros Hreq. unfold getConnectionData. rewrite Hreq. simpl. split.
- intros [Hp|Hp]; rewrite Hp; reflexivity.
- intros t Hp Hc Hl. rewrite Hp. simpl. fold (legList t).
  now rewrite (enrichLegs_uncached c (legList t) Hc Hl).
Qed.

(** X16: the trip that [getConnectionData] hands to its callback has its
    legs in an array, one for each leg of the document and in the same
    order, each with its three stations as they were and their names as
    [getStationName] finds them in the cached list ([undefined] for an
    abbreviation that is not in it); the date of departure is trimmed and
    the three other time fields are as they were. *)
Theorem X16_getConnectionData_enriches_legs
    (c : infoCache Detail Elevator) (sl : StationList) (cnxn : connection)
    (body : string) (t : trip) :
  getStationList c = Some sl ->
  httpRequest (buildHttpRequestOptions env_BART_API_KEY (scheduleUrl cnxn)) = Body body ->
  parseSchedule body = Result t ->
  exists t' ls',
    connect c cnxn = Callback None (Some t')
    /\ legs t' = Many ls'
    /\ Forall2 (enriched (elements (station sl))) (legList t) ls'
    /\ origTimeDate (details t') = trim (origTimeDate (details t))
    /\ origTimeMin (details t') = origTimeMin (details t)
    /\ destTimeDate (details t') = destTimeDate (details t)
    /\ destTimeMin (details t') = destTimeMin (details t).
Proof.
intros Hc Hreq Hp. unfold getConnectionData. rewrite Hreq. simpl. rewrite Hp. simpl.
fold (legList t).
destruct (enrichLegs_enriched c sl (legList t) Hc) as (ls' & Hls & Hf).
rewrite Hls. simpl. eexists _, ls'. repeat split; trivial.
Qed.

End ConnectionFacts.

Lemma upper_idempotent (c : ascii) : upper (upper c) = upper c.
Proof.
destruct c as [[] [] [] [] [] [] [] []]; reflexivity.
Qed.

Lemma toUpperCase_idempotent (s : string) : toUpperCase (toUpperCase s) = toUpperCase s.
Proof.
induction s as [|c r IH]; simpl; [reflexivity|].
now rewrite upper_idempotent, IH.
Qed.

(** X17: the station codes of a connection may be given in any case: the
    request for the schedule, and so the outcome of [getConnectionData], is
    the same for a code and for the code in capitals. *)
Theorem X17_station_codes_in_any_case {Detail Elevator : Type}
    (env_BART_API_KEY : option string) (httpRequest : requestOptions -> reply)
    (parseSchedule : string -> parsed trip) (newDate : string -> number)
    (c : infoCache Detail Elevator) (from to : string) :
  scheduleUrl {| start := toUpperCase from; cnxnDestination := toUpperCase to |}
  = scheduleUrl {| start := from; cnxnDestination := to |}
  /\ getConnectionData env_BART_API_KEY httpRequest parseSchedule newDate c
       {| start := toUpperCase from; cnxnDestination := toUpperCase to |}
     = getConnectionData env_BART_API_KEY httpRequest parseSchedule newDate c
         {| start := from; cnxnDestination := to |}.
Proof.
assert (H : scheduleUrl {| start := toUpperCase from; cnxnDestination := toUpperCase to |}
            = scheduleUrl {| start := from; cnxnDestination := to |}).
{ unfold scheduleUrl. simpl. now rewrite !toUpperCase_idempotent. }
split; [exact H|]. unfold getConnectionData. now rewrite H.
Qed.

(** X18: every request goes, with [GET], to the base URL followed by the
    command and by a key that is never empty: the key of the environment
    when there is one and it is not the empty string, the demo key
    otherwise. *)
Theorem X18_every_request_carries_a_key (env_BART_API_KEY : option string)
    (requestUrl : string) :
  exists key,
    key <> ""%string
    /\ uri (buildHttpRequestOptions env_BART_API_KEY requestUrl)
       = (bartApiBaseUrl ++ "/" ++ requestUrl ++ "&key=" ++ key)%string
    /\ (forall k, env_BART_API_KEY = Some k -> k <> ""%string -> key = k)
    /\ (env_BART_API_KEY = None \/ env_BART_API_KEY = Some ""%string -> key = defaultApiKey)
    /\ method (buildHttpRequestOptions env_BART_API_KEY requestUrl) = "GET"%string
    /\ timeout (buildHttpRequestOptions env_BART_API_KEY requestUrl) = 10000%Z
    /\ followRedirect (buildHttpRequestOptions env_BART_API_KEY requestUrl) = true
    /\ maxRedirects (buildHttpRequestOptions env_BART_API_KEY requestUrl) = 10%Z.
Proof.
exists (bartApiKey env_BART_API_KEY).
assert (Hkey : bartApiKey env_BART_API_KEY <> ""%string).
{ unfold bartApiKey. destruct env_BART_API_KEY as [k|]; [|discriminate].
  destruct (String.eqb k "") eqn:Hk; [discriminate | now apply String.eqb_neq]. }
split; [exact Hkey|]. split; [reflexivity|]. split; [|split].
- intros k -> Hk. unfold bartApiKey.
  apply String.eqb_neq in Hk. now rewrite Hk.
- intros [->| ->]; reflexivity.
- repeat split.
Qed.

Example legs_enriched :
  enrichLegs (cacheOf (Detail := unit) (Elevator := unit) [twelfthStreet; nineteenthStreet])
    (legList morningTrip)
  = Ret [ {| legDetail :=
               {| origin := "12TH"; destination := "19TH"; trainHeadStation := "RICH";
                  originName := Some "12th St. Oakland City Center"%string;
                  destinationName := Some "19th St. Oakland"%string;
                  trainHeadStationName := None |} |} ].
Proof. reflexivity. Qed.

Lemma X15_getConnectionData_throws_witness :
  getConnectionData (Detail := unit) (Elevator := unit)
    None echoUpstream morningParser (LocalDate.newDate (-480))
    emptyCache {| start := "12th"; cnxnDestination := "19th" |}
  = Throws TypeError
  /\ getConnectionData (Detail := unit) (Elevator := unit)
       None echoUpstream (fun _ : string => Unreadable) (LocalDate.newDate (-480))
       (cacheOf [twelfthStreet; nineteenthStreet])
       {| start := "12th"; cnxnDestination := "19th" |}
     = Throws TypeError.
Proof.
split.
- apply (proj2 (X15_getConnectionData_throws (Detail := unit) (Elevator := unit)
                  None echoUpstream morningParser (LocalDate.newDate (-480))
                  emptyCache {| start := "12th"; cnxnDestination := "19th" |}
                  (uri (buildHttpRequestOptions None
                          (scheduleUrl {| start := "12th"; cnxnDestination := "19th" |})))
                  eq_refl) morningTrip); try reflexivity.
  discriminate.
- apply (proj1 (X15_getConnectionData_throws (Detail := unit) (Elevator := unit)
                  None echoUpstream (fun _ : string => Unreadable) (LocalDate.newDate (-480))
                  (cacheOf [twelfthStreet; nineteenthStreet])
                  {| start := "12th"; cnxnDestination := "19th" |}
                  (uri (buildHttpRequestOptions None
                          (scheduleUrl {| start := "12th"; cnxnDestination := "19th" |})))
                  eq_refl)).
  now right.
Defined.

Lemma X16_getConnectionData_enriches_legs_witness :
  exists t' ls',
    getConnectionData (Detail := unit) (Elevator := unit)
      None echoUpstream morningParser (LocalDate.newDate (-480))
      (cacheOf [twelfthStreet; nineteenthStreet])
      {| start := "12th"; cnxnDestination := "19th" |}
    = Callback None (Some t')
    /\ legs t' = Many ls'
    /\ Forall2 (enriched [twelfthStreet; nineteenthStreet]) (legList morningTrip) ls'
    /\ origTimeDate (details t') = "11/02/2026"%string
    /\ origTimeMin (details t') = "8:00 AM"%string
    /\ destTimeDate (details t') = "11/02/2026"%string
    /\ destTimeMin (details t') = "8:35 AM"%string.
Proof.
apply (X16_getConnectionData_enriches_legs (Detail := unit) (Elevator := unit)
         None echoUpstream morningParser (LocalDate.newDate (-480))
         (cacheOf [twelfthStreet; nineteenthStreet])
         {| station := Many [twelfthStreet; nineteenthStreet] |}
         {| start := "12th"; cnxnDestination := "19th" |}
         (uri (buildHttpRequestOptions None
                 (scheduleUrl {| start := "12th"; cnxnDestination := "19th" |})))
         morningTrip eq_refl eq_refl eq_refl).
Defined.

Section Pipeline.

Context {Detail Elevator : Type}.
Variable env_BART_API_KEY : option string.
Variable httpRequest : requestOptions -> reply.
Variable parseStations : string -> parsed (option StationList).
Variables parseAccess parseInfo : string -> parsed Detail.
Variable detailName : Detail -> string.

Local Abbreviation store :=
  (storeStationList (Detail := Detail) (Elevator := Elevator)
     env_BART_API_KEY httpRequest parseStations).
Local Abbreviation load :=
  (loadStationList (Elevator := Elevator) env_BART_API_KEY httpRequest parseStations
     parseAccess parseInfo detailName).
Local Abbreviation publishes := (allOrNothing env_BART_API_KEY httpRequest detailName).

Lemma dispatch_other_slots (c : infoCache Detail Elevator) (f0 : @fanout Detail Elevator) :
  getStationInfoAndAccess detailName c = Ret f0 ->
  stationList (cached f0) = stationList c
  /\ elevatorStatus (cached f0) = elevatorStatus c.
Proof.
unfold getStationInfoAndAccess, cachedStations, getStationList.
destruct (stationList c) as [sl|] eqn:Hc; simpl; [|discriminate].
intros H. injection H as <-. unfold infoFinal, accessFinal. simpl.
destruct (allDone _); simpl; destruct (allDone _); simpl; split; trivial.
Qed.

(** X19: [loadStationList] as a whole.  When the refresh of the list
    throws, nothing is written and no request of the fan-out is made.  When
    the payload has no [stations] element, the refresh stores [undefined] in
    the station list slot, and the fan-out throws on it before it makes a
    request: the list that the cache had is lost.  When the refresh stores a
    list, that list is in the cache from then on, whatever becomes of the
    fan-out, and each of the two aggregates is either the one of the cache
    before, which may be for an older list, or the whole sorted aggregate
    for the elements of the new station array; the elevator status is as it
    was. *)
Theorem X19_loadStationList_pipeline
    (c : infoCache Detail Elevator) (events : list completion) :
  NoDup (accessOrder events) ->
  NoDup (infoOrder events) ->
  (storeStationList env_BART_API_KEY httpRequest parseStations c = Throw TypeError
   /\ load events c = Throw TypeError)
  \/ (storeStationList env_BART_API_KEY httpRequest parseStations c
      = Ret (updateStationList c None)
      /\ load events c = Throw TypeError)
  \/ exists l r,
       storeStationList env_BART_API_KEY httpRequest parseStations c
       = Ret (updateStationList c (Some l))
       /\ load events c = Ret r
       /\ getStationList (finalCache r) = Some l
       /\ getElevatorStatus (finalCache r) = getElevatorStatus c
       /\ publishes parseAccess stationAccessURL (elements (station l))
            (getStationAccess c) (getStationAccess (finalCache r))
       /\ publishes parseInfo stationInfoURL (elements (station l))
            (getStationInfo c) (getStationInfo (finalCache r)).
Proof.
intros Hnda Hndi. unfold loadStationList.
destruct (store c) as [c1|e] eqn:Hs; simpl.
2:{ left. destruct e. now split. }
right.
assert (Hc1 : exists stations, c1 = updateStationList c stations).
{ unfold storeStationList in Hs.
  destruct (replyBody _) as [body|]; simpl in Hs; [|discriminate].
  destruct (parseStations (replace rawColiseum coliseum body)) as [| |stations];
    simpl in Hs; try discriminate.
  injection Hs as <-. now exists stations. }
destruct Hc1 as [[l|] ->].
2:{ left. split; reflexivity. }
right.
destruct (getStationInfoAndAccess detailName (updateStationList c (Some l)))
  as [f0|e] eqn:Hd.
2:{ unfold getStationInfoAndAccess, cachedStations in Hd. discriminate. }
simpl. exists l. eexists. split; [reflexivity|]. split; [reflexivity|].
destruct (dispatch_other_slots _ _ Hd) as [Hl0 He0].
destruct (runFanout_other_slots env_BART_API_KEY httpRequest parseAccess parseInfo detailName
            events f0) as [Hl1 He1].
destruct (runFanout_handled env_BART_API_KEY httpRequest parseAccess parseInfo detailName
            events f0 Hnda Hndi) as (h & f & Hrun & Hcache & Hnda' & Hndi').
destruct (finished_run_publishes env_BART_API_KEY httpRequest parseAccess parseInfo
            detailName (updateStationList c (Some l)) l h f0 f eq_refl Hd Hrun Hnda' Hndi')
  as [Ha Hi].
unfold getStationList, getElevatorStatus, getStationAccess, getStationInfo.
rewrite Hl1, He1, Hl0, He0. rewrite <- Hcache.
repeat split; assumption.
Qed.

End Pipeline.

Lemma X19_loadStationList_pipeline_witness :
  exists l r,
    storeStationList None coliseumUpstream twoStations refreshedCache
    = Ret (updateStationList refreshedCache (Some l))
    /\ loadStationList None coliseumUpstream twoStations echoParser echoParser name
         [AccessDone 0; InfoDone 0] refreshedCache = Ret r
    /\ getStationList (finalCache r) = Some l
    /\ getElevatorStatus (finalCache r) = getElevatorStatus refreshedCache
    /\ getStationAccess (finalCache r) = Some [twelfthStreet; cityCenter]
    /\ getStationInfo (finalCache r) = Some [twelfthStreet; cityCenter].
Proof.
destruct (X19_loadStationList_pipeline None coliseumUpstream twoStations echoParser
            echoParser name refreshedCache [AccessDone 0; InfoDone 0])
  as [[H _]|[[H _]|(l & r & Hs & Hl & Hsl & He & _)]].
- repeat constructor; simpl; intuition.
- repeat constructor; simpl; intuition.
- discriminate H.
- discriminate H.
- exists l, r. split; [exact Hs|]. split; [exact Hl|]. split; [exact Hsl|].
  split; [exact He|].
  vm_compute in Hl. injection Hl as <-. split; reflexivity.
Defined.
